(** * MoneyPlant: the natural-language reminder-command parser of [app.py]

    A shallow embedding of the rule-based part of [app.py]: the date
    resolver [parse_date], the field extractor [extract_reminder_info], the
    intent classifier [parse_reminder_request] and the store commands
    [delete_reminder], [mark_reminder_done], [list_reminders] and
    [create_reminder], together with the pieces of the Python runtime they
    rest on (the [str] methods, the backtracking [re] engine, [int], [float]
    and the [datetime] arithmetic).

    Conventions.
    - A Python [str] is a [list ascii]; a character is a code point below 256
      and the character tables ([\s], [\w], [\d], [lower]) are CPython's for
      that range.
    - A Python exception is a value of [exn]; code that may raise returns a
      [result].
    - [datetime.now()] is the parameter [now]; [dateutil.parser.parse] is the
      parameter [calendar_parse], which returns a [datetime] or raises.
    - The table [payment_reminders] is a list of rows; the order in which
      the database returns rows and the identifier it gives to a new row
      are parameters. *)

From Stdlib Require Import List Ascii String Bool Arith ZArith QArith Lia.
Import ListNotations.

Set Implicit Arguments.
Close Scope Q_scope.

(** ** Python [str] *)

Definition str := list ascii.

Definition s (x : string) : str := list_ascii_of_string x.

Module Text.

Definition code (c : ascii) : nat := nat_of_ascii c.

Definition between (lo hi n : nat) : bool := (lo <=? n) && (n <=? hi).

(** [str.isspace] and the class [\s]. *)
Definition is_space (c : ascii) : bool :=
  let n := code c in
  between 9 13 n || between 28 32 n || (n =? 133) || (n =? 160).

(** The class [\d]. *)
Definition is_digit (c : ascii) : bool := between 48 57 (code c).

Definition is_upper (c : ascii) : bool :=
  let n := code c in
  between 65 90 n || between 192 214 n || between 216 222 n.

Definition is_lower (c : ascii) : bool :=
  let n := code c in
  between 97 122 n || (n =? 170) || (n =? 181) || (n =? 186)
  || between 223 246 n || between 248 255 n.

(** The class [\w]: alphanumeric code points and the underscore. *)
Definition is_word (c : ascii) : bool :=
  let n := code c in
  is_digit c || is_upper c || is_lower c || (n =? 95)
  || (n =? 178) || (n =? 179) || (n =? 185) || between 188 190 n.

Definition lower_char (c : ascii) : ascii :=
  if is_upper c then ascii_of_nat (code c + 32) else c.

(** Upper-casing of one character; the three lower-case code points whose
    upper case lies outside the range (181, 223, 255) are left alone. *)
Definition upper_char (c : ascii) : ascii :=
  let n := code c in
  if between 97 122 n || between 224 246 n || between 248 254 n
  then ascii_of_nat (n - 32) else c.

(** [str.lower] *)
Definition lower (t : str) : str := map lower_char t.

Definition eqc (a b : ascii) : bool := Ascii.eqb a b.

Fixpoint eq_str (a b : str) : bool :=
  match a, b with
  | [], [] => true
  | x :: a', y :: b' => eqc x y && eq_str a' b'
  | _, _ => false
  end.

Fixpoint starts_with (p t : str) : bool :=
  match p, t with
  | [], _ => true
  | x :: p', y :: t' => eqc x y && starts_with p' t'
  | _ :: _, [] => false
  end.

(** [p in t] on strings. *)
Fixpoint contains (p t : str) : bool :=
  starts_with p t ||
  match t with
  | [] => false
  | _ :: t' => contains p t'
  end.

Fixpoint lstrip_by (f : ascii -> bool) (t : str) : str :=
  match t with
  | c :: t' => if f c then lstrip_by f t' else t
  | [] => []
  end.

Definition strip_by (f : ascii -> bool) (t : str) : str :=
  rev (lstrip_by f (rev (lstrip_by f t))).

(** [str.strip()] *)
Definition strip (t : str) : str := strip_by is_space t.

(** [str.strip(chars)] *)
Definition strip_chars (chars t : str) : str :=
  strip_by (fun c => existsb (eqc c) chars) t.

(** [str.replace(a, b)] for one-character [a] and [b]. *)
Definition replace_char (a b : ascii) (t : str) : str :=
  map (fun c => if eqc c a then b else c) t.

(** [str.split()]: the maximal runs of non-space characters. *)
Fixpoint split_aux (t cur : str) (acc : list str) : list str :=
  match t with
  | [] => rev (match cur with [] => acc | _ => rev cur :: acc end)
  | c :: t' =>
      if is_space c
      then split_aux t' [] (match cur with [] => acc | _ => rev cur :: acc end)
      else split_aux t' (c :: cur) acc
  end.

Definition split (t : str) : list str := split_aux t [] [].

(** [sep.join(parts)] *)
Fixpoint join (sep : str) (parts : list str) : str :=
  match parts with
  | [] => []
  | [p] => p
  | p :: ps => p ++ sep ++ join sep ps
  end.

(** [str.title()]: a cased character is upper-cased when it follows an
    uncased one and lower-cased otherwise. *)
Fixpoint title_aux (prev_cased : bool) (t : str) : str :=
  match t with
  | [] => []
  | c :: t' =>
      let cased := is_upper c || is_lower c in
      (if prev_cased then lower_char c else upper_char c)
        :: title_aux cased t'
  end.

Definition title (t : str) : str := title_aux false t.

End Text.

(** ** Python exceptions and results *)

Inductive exn := ValueError | OverflowError.

Inductive result (A : Type) :=
| Ok (a : A)
| Raise (e : exn).

Arguments Ok {A} a.
Arguments Raise {A} e.

Definition bind {A B : Type} (m : result A) (f : A -> result B) : result B :=
  match m with
  | Ok a => f a
  | Raise e => Raise e
  end.

Notation "x <- m ;; k" := (bind m (fun x => k))
  (at level 61, m at next level, right associativity).

(** ** The [re] module: a backtracking matcher *)

Module Re.

(** One-character matchers. *)
Inductive cset :=
| Lit (c : ascii)            (* a literal character *)
| Digit                      (* \d *)
| Space                      (* \s *)
| AnyChar                    (* .  (no DOTALL: anything but a newline) *)
| OneOf (l : list ascii).    (* [...] *)

Inductive regex :=
| Eps
| Chr (c : cset)
| Seq (r1 r2 : regex)
| Alt (r1 r2 : regex)
| Rep (greedy : bool) (lo : nat) (hi : option nat) (r : regex)
| Grp (i : nat) (r : regex)  (* capturing group number i *)
| WordB                      (* \b *)
| Eos.                       (* $ *)

(** The matcher's position: what is left of the subject, the character just
    before it (for [\b]), the offset, and the groups captured so far. *)
Record mstate := MState {
  prev : option ascii;
  rest : str;
  pos  : nat;
  caps : list (nat * str)
}.

Definition newline : ascii := ascii_of_nat 10.

Definition cset_mem (ic : bool) (cs : cset) (a : ascii) : bool :=
  match cs with
  | Lit c => if ic then Text.eqc (Text.lower_char c) (Text.lower_char a)
             else Text.eqc c a
  | Digit => Text.is_digit a
  | Space => Text.is_space a
  | AnyChar => negb (Text.eqc a newline)
  | OneOf l =>
      existsb (fun c => if ic then Text.eqc (Text.lower_char c) (Text.lower_char a)
                        else Text.eqc c a) l
  end.

Definition is_word_opt (o : option ascii) : bool :=
  match o with
  | Some c => Text.is_word c
  | None => false
  end.

Definition at_boundary (st : mstate) : bool :=
  xorb (is_word_opt (prev st)) (is_word_opt (hd_error (rest st))).

(** [$] without MULTILINE: the end, or just before a final newline. *)
Definition at_end (st : mstate) : bool :=
  match rest st with
  | [] => true
  | [c] => Text.eqc c newline
  | _ => false
  end.

Definition set_cap (i : nat) (st0 st1 : mstate) : mstate :=
  MState (prev st1) (rest st1) (pos st1)
         ((i, firstn (pos st1 - pos st0) (rest st0)) :: caps st1).

Definition under (hi : option nat) (n : nat) : bool :=
  match hi with
  | Some h => n <? h
  | None => true
  end.

(** The loop of a repetition [r{lo,hi}] whose body is matched by [body]:
    [n] iterations are done, [st0] is the position reached.  A greedy loop
    tries one more iteration before it tries to stop, a lazy one the other
    way round.  An iteration beyond the minimum has to consume a character. *)
Section RepLoop.

Variable body : mstate -> (mstate -> option mstate) -> option mstate.
Variables (greedy : bool) (lo : nat) (hi : option nat).
Variable k : mstate -> option mstate.

Fixpoint rep_loop (fuel n : nat) (st0 : mstate) {struct fuel} : option mstate :=
  let more (_ : unit) :=
    match fuel with
    | O => None
    | S fuel' =>
        if under hi n
        then body st0
               (fun st1 =>
                  if (n <? lo) || (pos st0 <? pos st1)
                  then rep_loop fuel' (S n) st1
                  else None)
        else None
    end in
  let stop (_ : unit) := if lo <=? n then k st0 else None in
  if greedy
  then match more tt with Some m => Some m | None => stop tt end
  else match stop tt with Some m => Some m | None => more tt end.

End RepLoop.

(** [rmatch ic r st k]: match [r] at [st] and hand the position reached to
    the continuation [k]; alternatives are tried in priority order and the
    first one whose continuation succeeds wins.  [ic] is IGNORECASE. *)
Fixpoint rmatch (ic : bool) (r : regex) (st : mstate)
         (k : mstate -> option mstate) {struct r} : option mstate :=
  match r with
  | Eps => k st
  | Chr cs =>
      match rest st with
      | a :: tl =>
          if cset_mem ic cs a
          then k (MState (Some a) tl (S (pos st)) (caps st))
          else None
      | [] => None
      end
  | Seq r1 r2 => rmatch ic r1 st (fun st1 => rmatch ic r2 st1 k)
  | Alt r1 r2 =>
      match rmatch ic r1 st k with
      | Some m => Some m
      | None => rmatch ic r2 st k
      end
  | Rep greedy lo hi r1 =>
      rep_loop (rmatch ic r1) greedy lo hi k (lo + List.length (rest st)) 0 st
  | Grp i r1 => rmatch ic r1 st (fun st1 => k (set_cap i st st1))
  | WordB => if at_boundary st then k st else None
  | Eos => if at_end st then k st else None
  end.

(** A match object: its span and its groups. *)
Record rmatch_obj := MatchObj {
  m_start : nat;
  m_end   : nat;
  m_caps  : list (nat * str)
}.

Fixpoint lookup_cap (i : nat) (l : list (nat * str)) : option str :=
  match l with
  | [] => None
  | (j, v) :: l' => if i =? j then Some v else lookup_cap i l'
  end.

(** [m.group(i)] for [i >= 1]; [None] when the group took no part. *)
Definition group (m : rmatch_obj) (i : nat) : option str :=
  lookup_cap i (m_caps m).

Definition match_at (ic : bool) (r : regex) (st : mstate) : option rmatch_obj :=
  match rmatch ic r st (fun st1 => Some st1) with
  | Some st1 => Some (MatchObj (pos st) (pos st1) (caps st1))
  | None => None
  end.

Definition step (st : mstate) : option mstate :=
  match rest st with
  | a :: tl => Some (MState (Some a) tl (S (pos st)) (caps st))
  | [] => None
  end.

Fixpoint search_from (ic : bool) (r : regex) (fuel : nat) (st : mstate)
  : option rmatch_obj :=
  match match_at ic r st with
  | Some m => Some m
  | None =>
      match fuel with
      | O => None
      | S fuel' =>
          match step st with
          | Some st' => search_from ic r fuel' st'
          | None => None
          end
      end
  end.

Definition start (t : str) : mstate := MState None t 0 [].

(** [re.search(r, t, flags)]: the match at the leftmost position that has
    one. *)
Definition search (ic : bool) (r : regex) (t : str) : option rmatch_obj :=
  search_from ic r (List.length t) (start t).

(** [re.match(r, t)]: a match at the beginning only. *)
Definition match_ (ic : bool) (r : regex) (t : str) : option rmatch_obj :=
  match_at ic r (start t).

Fixpoint drop (n : nat) (st : mstate) : mstate :=
  match n with
  | O => st
  | S n' => match step st with Some st' => drop n' st' | None => st end
  end.

(** [re.sub(r, repl, t, flags)] for a replacement [repl] without group
    references: every non-overlapping match, leftmost first, is replaced. *)
Fixpoint sub_from (ic : bool) (r : regex) (repl : str) (fuel : nat)
         (st : mstate) : str :=
  match fuel with
  | O => rest st
  | S fuel' =>
      let copy (_ : unit) :=
        match rest st with
        | a :: _ => a :: sub_from ic r repl fuel' (drop 1 st)
        | [] => []
        end in
      match match_at ic r st with
      | Some m =>
          if m_start m <? m_end m
          then repl ++ sub_from ic r repl fuel' (drop (m_end m - m_start m) st)
          else repl ++ copy tt
      | None => copy tt
      end
  end.

Definition sub (ic : bool) (r : regex) (repl : str) (t : str) : str :=
  sub_from ic r repl (S (List.length t)) (start t).

(** *** Pattern combinators *)

Definition lit (x : string) : regex :=
  fold_right (fun c r => Seq (Chr (Lit c)) r) Eps (s x).

Definition lit_str (t : str) : regex :=
  fold_right (fun c r => Seq (Chr (Lit c)) r) Eps t.

Fixpoint seqs (l : list regex) : regex :=
  match l with
  | [] => Eps
  | [r] => r
  | r :: l' => Seq r (seqs l')
  end.

Fixpoint alts (l : list regex) : regex :=
  match l with
  | [] => Eps
  | [r] => r
  | r :: l' => Alt r (alts l')
  end.

Definition words (l : list string) : regex := alts (map lit l).

Definition opt (r : regex) : regex := Rep true 0 (Some 1) r.      (* r?  *)
Definition star (r : regex) : regex := Rep true 0 None r.         (* r*  *)
Definition plus (r : regex) : regex := Rep true 1 None r.         (* r+  *)
Definition plus_lazy (r : regex) : regex := Rep false 1 None r.   (* r+? *)
Definition times (lo hi : nat) (r : regex) : regex :=             (* r{lo,hi} *)
  Rep true lo (Some hi) r.

Definition d : regex := Chr Digit.
Definition sp : regex := Chr Space.
Definition dot : regex := Chr AnyChar.
Definition ch (x : string) : regex := lit x.

End Re.

(** ** [int] and [float] on strings *)

Module Num.

Definition digit_val (c : ascii) : Z := Z.of_nat (Text.code c - 48).

(** Decimal digits, single underscores allowed between two digits. *)
Fixpoint digits_val (acc : Z) (after_digit : bool) (t : str) : option Z :=
  match t with
  | [] => if after_digit then Some acc else None
  | c :: t' =>
      if Text.is_digit c then digits_val (10 * acc + digit_val c) true t'
      else if Text.eqc c "_"%char && after_digit
           then match t' with
                | c' :: _ => if Text.is_digit c' then digits_val acc false t' else None
                | [] => None
                end
           else None
  end.

(** [int(t)]: surrounding whitespace, an optional sign, decimal digits;
    anything else is a [ValueError]. *)
Definition int_of_str (t : str) : result Z :=
  let t := Text.strip t in
  let '(neg, body) :=
    match t with
    | c :: t' => if Text.eqc c "-"%char then (true, t')
                 else if Text.eqc c "+"%char then (false, t') else (false, t)
    | [] => (false, t)
    end in
  match digits_val 0 false body with
  | Some v => Ok (if neg then (- v)%Z else v)
  | None => Raise ValueError
  end.

Fixpoint all_digits (t : str) : bool :=
  match t with
  | [] => true
  | c :: t' => Text.is_digit c && all_digits t'
  end.

Fixpoint split_point (t : str) : str * option str :=
  match t with
  | [] => ([], None)
  | c :: t' =>
      if Text.eqc c "."%char then ([], Some t')
      else let '(a, b) := split_point t' in (c :: a, b)
  end.

Definition nat_digits (t : str) : Z :=
  fold_left (fun acc c => (10 * acc + digit_val c)%Z) t 0%Z.

Definition pow10 (n : nat) : positive := Nat.iter n (Pos.mul 10) 1%positive.

(** [float(t)] on an unsigned decimal literal [digits] or [digits.digits],
    as an exact rational (the rounding to a double is not modelled); any
    other text is a [ValueError] here. *)
Definition float_of_str (t : str) : result Q :=
  match split_point t with
  | (ip, None) =>
      if all_digits ip && negb (Nat.eqb (List.length ip) 0)
      then Ok (inject_Z (nat_digits ip))
      else Raise ValueError
  | (ip, Some fp) =>
      if all_digits ip && all_digits fp
         && negb (Nat.eqb (List.length ip + List.length fp) 0)
      then Ok (Qred (Qmake (nat_digits (ip ++ fp)) (pow10 (List.length fp))))
      else Raise ValueError
  end.

Definition digit_char (n : Z) : ascii :=
  ascii_of_nat (48 + Z.to_nat (n mod 10)).

Fixpoint digits_of (fuel : nat) (n : Z) (acc : str) : str :=
  match fuel with
  | O => acc
  | S fuel' =>
      if (n <? 10)%Z then digit_char n :: acc
      else digits_of fuel' (n / 10)%Z (digit_char n :: acc)
  end.

(** [str(n)] for [n >= 0]. *)
Definition str_of_int (n : Z) : str :=
  digits_of (S (Z.to_nat (Z.log2 n))) n [].

(** Zero padding on the left up to width [w], as [%02d] does. *)
Definition zfill (w : nat) (t : str) : str :=
  repeat "0"%char (w - List.length t) ++ t.

End Num.

(** ** [datetime] *)

Module Clock.

Local Open Scope Z_scope.

(** A naive [datetime]: the proleptic Gregorian ordinal of its date (day 1
    is 0001-01-01) and its time of day. *)
Record datetime := DateTime {
  ordinal : Z;
  hour : Z;
  minute : Z;
  second : Z;
  microsecond : Z
}.

(** [date.max.toordinal()], the ordinal of 9999-12-31. *)
Definition MAXORDINAL : Z := 3652059.

Definition validb (t : datetime) : bool :=
  (1 <=? ordinal t) && (ordinal t <=? MAXORDINAL)
  && (0 <=? hour t) && (hour t <? 24)
  && (0 <=? minute t) && (minute t <? 60)
  && (0 <=? second t) && (second t <? 60)
  && (0 <=? microsecond t) && (microsecond t <? 1000000).

Definition valid (t : datetime) : Prop := validb t = true.

(** [t + timedelta(days=n)]: [timedelta] refuses more than 999999999 days
    and the sum has to stay within [date.min .. date.max]. *)
Definition add_days (t : datetime) (n : Z) : result datetime :=
  if 999999999 <? Z.abs n then Raise OverflowError
  else if (0 <? ordinal t + n) && (ordinal t + n <=? MAXORDINAL)
       then Ok (DateTime (ordinal t + n) (hour t) (minute t) (second t)
                         (microsecond t))
       else Raise OverflowError.

(** [t.time() == datetime.min.time()] *)
Definition is_midnight (t : datetime) : bool :=
  (hour t =? 0) && (minute t =? 0) && (second t =? 0) && (microsecond t =? 0).

(** [t.replace(hour=h)] for an [h] within [0 .. 23]. *)
Definition replace_hour (t : datetime) (h : Z) : datetime :=
  DateTime (ordinal t) h (minute t) (second t) (microsecond t).

Definition DAYS_BEFORE_MONTH (m : Z) : Z :=
  match m with
  | 1 => 0 | 2 => 31 | 3 => 59 | 4 => 90 | 5 => 120 | 6 => 151
  | 7 => 181 | 8 => 212 | 9 => 243 | 10 => 273 | 11 => 304 | 12 => 334
  | _ => -1
  end.

Definition DAYS_IN_MONTH (m : Z) : Z :=
  match m with
  | 1 => 31 | 2 => 28 | 3 => 31 | 4 => 30 | 5 => 31 | 6 => 30
  | 7 => 31 | 8 => 31 | 9 => 30 | 10 => 31 | 11 => 30 | 12 => 31
  | _ => -1
  end.

Definition b2z (b : bool) : Z := if b then 1 else 0.

(** The calendar date of an ordinal, as [datetime.date.fromordinal]
    computes it: 400-, 100-, 4- and 1-year cycles, then the month. *)
Definition ord2ymd (n0 : Z) : Z * Z * Z :=
  let n := n0 - 1 in
  let n400 := n / 146097 in
  let n := n mod 146097 in
  let year := n400 * 400 + 1 in
  let n100 := n / 36524 in
  let n := n mod 36524 in
  let n4 := n / 1461 in
  let n := n mod 1461 in
  let n1 := n / 365 in
  let n := n mod 365 in
  let year := year + n100 * 100 + n4 * 4 + n1 in
  if (n1 =? 4) || (n100 =? 4) then (year - 1, 12, 31)
  else
    let leapyear := (n1 =? 3) && (negb (n4 =? 24) || (n100 =? 3)) in
    let month := Z.shiftr (n + 50) 5 in
    let preceding := DAYS_BEFORE_MONTH month + b2z ((2 <? month) && leapyear) in
    if n <? preceding
    then
      let month := month - 1 in
      let preceding :=
        preceding - (DAYS_IN_MONTH month + b2z ((month =? 2) && leapyear)) in
      (year, month, n - preceding + 1)
    else (year, month, n - preceding + 1).

Definition pad2 (n : Z) : str := Num.zfill 2 (Num.str_of_int n).

Definition pad4 (n : Z) : str := Num.zfill 4 (Num.str_of_int n).

(** [t.strftime('%Y-%m-%d %H:%M:%S+00:00')], the year on four digits. *)
Definition strftime (t : datetime) : str :=
  let '(y, m, dd) := ord2ymd (ordinal t) in
  pad4 y ++ s "-" ++ pad2 m ++ s "-" ++ pad2 dd ++ s " "
  ++ pad2 (hour t) ++ s ":" ++ pad2 (minute t) ++ s ":" ++ pad2 (second t)
  ++ s "+00:00".

End Clock.

(** ** The patterns of [app.py] *)

Import Re.

(** [\d+(?:\.\d{2})?] *)
Definition decimal : regex :=
  Seq (plus d) (opt (Seq (ch ".") (times 2 2 d))).

Definition amount_patterns : list regex := [
  (* \$(\d+(?:\.\d{2})?) *)
  seqs [ch "$"; Grp 1 decimal];
  (* amount\s+(?:of\s+)?\$?(\d+(?:\.\d{2})?) *)
  seqs [lit "amount"; plus sp; opt (Seq (lit "of") (plus sp)); opt (ch "$");
        Grp 1 decimal];
  (* (\d+(?:\.\d{2})?)\s*dollars? *)
  seqs [Grp 1 decimal; star sp; lit "dollar"; opt (ch "s")];
  (* pay\s+\$?(\d+(?:\.\d{2})?) *)
  seqs [lit "pay"; plus sp; opt (ch "$"); Grp 1 decimal]
].

(** [january|february|...|december] *)
Definition month_names : regex :=
  words ["january"; "february"; "march"; "april"; "may"; "june"; "july";
         "august"; "september"; "october"; "november"; "december"]%string.

(** [(?:january|...|december)\s+\d{1,2}(?:,?\s+\d{4})?] *)
Definition month_day : regex :=
  seqs [month_names; plus sp; times 1 2 d;
        opt (seqs [opt (ch ","); plus sp; times 4 4 d])].

(** [\d{1,2}[-/]\d{1,2}(?:[-/]\d{2,4})?] *)
Definition numeric_date : regex :=
  seqs [times 1 2 d; Chr (OneOf (s "-/")); times 1 2 d;
        opt (Seq (Chr (OneOf (s "-/"))) (times 2 4 d))].

(** [(?:on|by|due)] *)
Definition on_by_due : regex := words ["on"; "by"; "due"]%string.

Definition date_patterns : list regex := [
  (* (?:on|by|due)\s+((?:january|...|december)\s+\d{1,2}(?:,?\s+\d{4})?) *)
  seqs [on_by_due; plus sp; Grp 1 month_day];
  (* (?:on|by|due)\s+(\d{1,2}[-/]\d{1,2}(?:[-/]\d{2,4})?) *)
  seqs [on_by_due; plus sp; Grp 1 numeric_date];
  (* (?:on|by|due)\s+(\d{4}-\d{1,2}-\d{1,2}) *)
  seqs [on_by_due; plus sp;
        Grp 1 (seqs [times 4 4 d; ch "-"; times 1 2 d; ch "-"; times 1 2 d])];
  (* (tomorrow|today|next\s+week|next\s+month) *)
  Grp 1 (alts [lit "tomorrow"; lit "today";
               seqs [lit "next"; plus sp; lit "week"];
               seqs [lit "next"; plus sp; lit "month"]]);
  (* (?:in\s+)?(\d+)\s+days? *)
  seqs [opt (Seq (lit "in") (plus sp)); Grp 1 (plus d); plus sp; lit "day";
        opt (ch "s")]
].

(** [rent|electricity|water|gas|credit\s+card|loan|mortgage|insurance|subscription|phone|internet] *)
Definition category_names : regex :=
  alts [lit "rent"; lit "electricity"; lit "water"; lit "gas";
        seqs [lit "credit"; plus sp; lit "card"]; lit "loan"; lit "mortgage";
        lit "insurance"; lit "subscription"; lit "phone"; lit "internet"].

Definition category_patterns : list regex := [
  (* (?:for|category)\s+(rent|...|internet) *)
  seqs [words ["for"; "category"]%string; plus sp; Grp 1 category_names];
  (* (rent|...|internet)\s+(?:payment|bill) *)
  seqs [Grp 1 category_names; plus sp; words ["payment"; "bill"]%string]
].

Definition recurrence_patterns : list regex := [
  (* (weekly|monthly|yearly|daily)\s+(?:reminder|payment) *)
  seqs [Grp 1 (words ["weekly"; "monthly"; "yearly"; "daily"]%string); plus sp;
        words ["reminder"; "payment"]%string];
  (* (?:every|repeat)\s+(\d+)\s+(days?|weeks?|months?|years?) *)
  seqs [words ["every"; "repeat"]%string; plus sp; Grp 1 (plus d); plus sp;
        Grp 2 (alts [Seq (lit "day") (opt (ch "s"));
                     Seq (lit "week") (opt (ch "s"));
                     Seq (lit "month") (opt (ch "s"));
                     Seq (lit "year") (opt (ch "s"))])]
].

(** [\b(?:create|add|set|new|reminder|for|to|pay|payment|bill)\b] *)
Definition command_words : regex :=
  seqs [WordB;
        words ["create"; "add"; "set"; "new"; "reminder"; "for"; "to"; "pay";
               "payment"; "bill"]%string;
        WordB].

(** [\$?\d+(?:\.\d{2})?\s*(?:dollars?)?] *)
Definition amount_reference : regex :=
  seqs [opt (ch "$"); decimal; star sp; opt (Seq (lit "dollar") (opt (ch "s")))].

(** [\b(?:on|by|due|tomorrow|today|next\s+week|next\s+month)\b.*] *)
Definition date_tail : regex :=
  seqs [WordB;
        alts [lit "on"; lit "by"; lit "due"; lit "tomorrow"; lit "today";
              seqs [lit "next"; plus sp; lit "week"];
              seqs [lit "next"; plus sp; lit "month"]];
        WordB; star dot].

(** [in\s+\d+\s+days?] *)
Definition in_n_days : regex :=
  seqs [lit "in"; plus sp; plus d; plus sp; lit "day"; opt (ch "s")].

Definition delete_patterns : list regex := [
  (* (?:delete|remove|cancel)\s+reminder(?:\s*:\s*|\s+)(.+) *)
  seqs [words ["delete"; "remove"; "cancel"]%string; plus sp; lit "reminder";
        Alt (seqs [star sp; ch ":"; star sp]) (plus sp); Grp 1 (plus dot)];
  (* (?:delete|remove|cancel)\s+(.+?)(?:\s+reminder)?$ *)
  seqs [words ["delete"; "remove"; "cancel"]%string; plus sp;
        Grp 1 (plus_lazy dot); opt (Seq (plus sp) (lit "reminder")); Eos];
  (* remove\s+(.+) *)
  seqs [lit "remove"; plus sp; Grp 1 (plus dot)];
  (* cancel\s+(.+) *)
  seqs [lit "cancel"; plus sp; Grp 1 (plus dot)]
].

(** [\b(?:reminder|the|my)\b] *)
Definition stray_words : regex :=
  seqs [WordB; words ["reminder"; "the"; "my"]%string; WordB].

(** [(?:mark|complete)\s+(.+?)(?:\s+as\s+done)?$] *)
Definition mark_pattern : regex :=
  seqs [words ["mark"; "complete"]%string; plus sp; Grp 1 (plus_lazy dot);
        opt (seqs [plus sp; lit "as"; plus sp; lit "done"]); Eos].

Definition create_patterns : list regex := [
  (* (?:create|add|set|new)\s+reminder\s+(.+) *)
  seqs [words ["create"; "add"; "set"; "new"]%string; plus sp; lit "reminder";
        plus sp; Grp 1 (plus dot)];
  (* remind\s+me\s+(?:to\s+)?(.+) *)
  seqs [lit "remind"; plus sp; lit "me"; plus sp; opt (Seq (lit "to") (plus sp));
        Grp 1 (plus dot)];
  (* set\s+(?:a\s+)?reminder\s+(.+) *)
  seqs [lit "set"; plus sp; opt (Seq (ch "a") (plus sp)); lit "reminder";
        plus sp; Grp 1 (plus dot)];
  (* add\s+reminder\s+(.+) *)
  seqs [lit "add"; plus sp; lit "reminder"; plus sp; Grp 1 (plus dot)]
].

(** ** The reminder parser *)

(** The dictionary [info] of [extract_reminder_info]; [None] is Python's
    [None]. *)
Record ReminderInfo := Info {
  title : option str;
  amount : Q;
  due_date : option str;
  category : option str;
  recurrence : option str;
  custom_recurrence_days : option Z
}.

(** The dictionaries returned by [parse_reminder_request], one constructor
    for each set of keys. *)
Inductive request :=
| Delete (title : str)       (* {"action": "delete", "title": title} *)
| ListReminders              (* {"action": "list"} *)
| MarkDone (title : str)     (* {"action": "mark_done", "title": title} *)
| Create (info : ReminderInfo)
                             (* {"action": "create", "title": ..., ...} *)
| NoAction.                  (* {"action": "none"} *)

Definition action (r : request) : str :=
  match r with
  | Delete _ => s "delete"
  | ListReminders => s "list"
  | MarkDone _ => s "mark_done"
  | Create _ => s "create"
  | NoAction => s "none"
  end.

(** [m.group(i)] where the program uses it as a string: every group it
    reads has taken part in the match; the empty string stands for a group
    that has not. *)
Definition group_str (m : rmatch_obj) (i : nat) : str :=
  match group m i with
  | Some t => t
  | None => []
  end.

Section Parser.

Import Clock.

(** [datetime.now()] *)
Variable now : datetime.

(** [dateutil.parser.parse] *)
Variable calendar_parse : str -> result datetime.

Definition parse_date (date_str : str) : result str :=
  let attempt : result str :=
    (* Handle relative dates *)
    let date_str_lower := Text.lower date_str in
    if Text.contains (s "today") date_str_lower then
      Ok (strftime now)
    else if Text.contains (s "tomorrow") date_str_lower then
      t <- add_days now 1 ;; Ok (strftime t)
    else if Text.contains (s "next week") date_str_lower then
      t <- add_days now 7 ;; Ok (strftime t)
    else if Text.contains (s "next month") date_str_lower then
      t <- add_days now 30 ;; Ok (strftime t)
    else
      (* Try to parse the date *)
      parsed_date <- calendar_parse date_str ;;
      (* If no time specified, set to 9 AM *)
      let parsed_date :=
        if is_midnight parsed_date then replace_hour parsed_date 9
        else parsed_date in
      Ok (strftime parsed_date) in
  match attempt with
  | Ok r => Ok r
  | Raise _ =>
      (* Default to tomorrow if parsing fails *)
      t <- add_days now 1 ;; Ok (strftime t)
  end.

(** The loop over [amount_patterns]. *)
Fixpoint extract_amount (patterns : list regex) (text : str) : Q :=
  match patterns with
  | [] => 0%Q
  | pattern :: patterns' =>
      match search true pattern text with
      | Some m =>
          match Num.float_of_str (group_str m 1) with
          | Ok v => v
          | Raise _ => extract_amount patterns' text
          end
      | None => extract_amount patterns' text
      end
  end.

(** The loop over [date_patterns]; [None] when no pattern matches. *)
Fixpoint extract_due_date (patterns : list regex) (text : str)
  : result (option str) :=
  match patterns with
  | [] => Ok None
  | pattern :: patterns' =>
      match search true pattern text with
      | Some m =>
          let date_str := group_str m 1 in
          match match_ false (plus d) date_str with
          | Some _ =>
              (* Handle "in X days" *)
              days <- Num.int_of_str date_str ;;
              t <- add_days now days ;;
              Ok (Some (strftime t))
          | None =>
              r <- parse_date date_str ;; Ok (Some r)
          end
      | None => extract_due_date patterns' text
      end
  end.

(** The loop over [category_patterns]. *)
Fixpoint extract_category (patterns : list regex) (text : str) : option str :=
  match patterns with
  | [] => None
  | pattern :: patterns' =>
      match search true pattern text with
      | Some m => Some (Text.replace_char " " "_" (group_str m 1))
      | None => extract_category patterns' text
      end
  end.

Definition fixed_recurrences : list str :=
  [s "weekly"; s "monthly"; s "yearly"; s "daily"].

(** The loop over [recurrence_patterns]: the pair of [info["recurrence"]]
    and [info["custom_recurrence_days"]]. *)
Fixpoint extract_recurrence (patterns : list regex) (text : str)
  : result (option str * option Z) :=
  match patterns with
  | [] => Ok (None, None)
  | pattern :: patterns' =>
      match search true pattern text with
      | Some m =>
          if existsb (Text.eq_str (group_str m 1)) fixed_recurrences
          then Ok (Some (group_str m 1), None)
          else
            n <- Num.int_of_str (group_str m 1) ;;
            let unit := group_str m 2 in
            if Text.contains (s "day") unit then
              Ok (Some (s "custom"), Some n)
            else if Text.contains (s "week") unit then
              Ok (Some (s "custom"), Some (n * 7)%Z)
            else if Text.contains (s "month") unit then
              Ok (Some (s "custom"), Some (n * 30)%Z)
            else if Text.contains (s "year") unit then
              Ok (Some (s "custom"), Some (n * 365)%Z)
            else Ok (None, Some n)
      | None => extract_recurrence patterns' text
      end
  end.

(** The title: the text with the command words, the amounts, the dates and
    the category taken out. *)
Definition clean_title (text : str) (category : option str) : str :=
  let title_text := text in
  (* Remove common command words *)
  let title_text := sub true command_words [] title_text in
  (* Remove amount references *)
  let title_text := sub false amount_reference [] title_text in
  (* Remove date references *)
  let title_text := sub true date_tail [] title_text in
  let title_text := sub false numeric_date [] title_text in
  let title_text := sub true month_day [] title_text in
  let title_text := sub true in_n_days [] title_text in
  (* Remove category references *)
  let title_text :=
    match category with
    | Some c =>
        match c with
        | [] => title_text
        | _ => sub true (lit_str (Text.replace_char "_" " " c)) [] title_text
        end
    | None => title_text
    end in
  (* Clean up the title *)
  let title_text := Text.strip (sub false (plus sp) (s " ") title_text) in
  Text.strip_chars (s ".,!?") title_text.

Definition extract_reminder_info (text : str) : result ReminderInfo :=
  let amount := extract_amount amount_patterns text in
  due <- extract_due_date date_patterns text ;;
  (* If no date found, default to tomorrow *)
  due <- match due with
         | Some ((_ :: _) as r) => Ok r
         | _ => parse_date (s "tomorrow")
         end ;;
  let category := extract_category category_patterns text in
  rec <- extract_recurrence recurrence_patterns text ;;
  let title_text := clean_title text category in
  let title :=
    match title_text with
    | _ :: _ => title_text
    | [] =>
        (* Default title based on category if available *)
        match category with
        | Some ((_ :: _) as c) =>
            Text.title (Text.replace_char "_" " " c) ++ s " Payment"
        | _ => s "Payment Reminder"
        end
    end in
  Ok (Info (Some title) amount (Some due) category (fst rec) (snd rec)).

(** The loop over [delete_patterns]: only the first pattern that matches is
    looked at. *)
Fixpoint delete_request (patterns : list regex) (user_input_lower : str)
  : option request :=
  match patterns with
  | [] => None
  | pattern :: patterns' =>
      match search false pattern user_input_lower with
      | Some delete_match =>
          let title := Text.strip (group_str delete_match 1) in
          let title := Text.strip (sub false stray_words [] title) in
          match title with
          | _ :: _ => Some (Delete title)
          | [] => None
          end
      | None => delete_request patterns' user_input_lower
      end
  end.

Definition list_commands : list str :=
  [s "list reminders"; s "show reminders"; s "my reminders"; s "view reminders"].

Definition done_commands : list str :=
  [s "mark as done"; s "complete reminder"; s "payment done"].

Definition mark_request (user_input_lower : str) : option request :=
  if existsb (fun cmd => Text.contains cmd user_input_lower) done_commands
  then
    match search false mark_pattern user_input_lower with
    | Some mark_match =>
        let title := Text.strip (group_str mark_match 1) in
        let title := Text.strip (sub false stray_words [] title) in
        match title with
        | _ :: _ => Some (MarkDone title)
        | [] => None
        end
    | None => None
    end
  else None.

(** The loop over [create_patterns]. *)
Fixpoint create_request (patterns : list regex) (user_input : str)
  : result request :=
  match patterns with
  | [] => Ok NoAction
  | pattern :: patterns' =>
      match search true pattern user_input with
      | Some m =>
          let reminder_text := group_str m 1 in
          info <- extract_reminder_info reminder_text ;;
          Ok (Create info)
      | None => create_request patterns' user_input
      end
  end.

(** The body of the [try] of [parse_reminder_request]. *)
Definition classify (user_input : str) : result request :=
  let user_input_lower := Text.lower user_input in
  match delete_request delete_patterns user_input_lower with
  | Some r => Ok r
  | None =>
      (* Check for list commands *)
      if existsb (fun cmd => Text.contains cmd user_input_lower) list_commands
      then Ok ListReminders
      else
        (* Check for mark as done *)
        match mark_request user_input_lower with
        | Some r => Ok r
        | None =>
            (* Check for create command patterns *)
            create_request create_patterns user_input
        end
  end.

(** [parse_reminder_request]: [except Exception] turns whatever the body
    raises into [{"action": "none"}]. *)
Definition parse_reminder_request (user_input : str) : request :=
  match classify user_input with
  | Ok r => r
  | Raise _ => NoAction
  end.

End Parser.

(** ** The reminder store and [delete_reminder] *)

Module Store.

(** A row of the table [payment_reminders], as far as the title commands
    look at it. *)
Record row := Row {
  row_id : str;
  row_title : str
}.

Definition table := list row.

(** The filter [.eq("id", reminder_id)] *)
Definition eq_id (reminder_id : str) (r : row) : bool :=
  Text.eq_str reminder_id (row_id r).

(** The filter [.eq("title", title)] *)
Definition eq_title (title : str) (r : row) : bool :=
  Text.eq_str title (row_title r).

(** The filter [.ilike("title", f"%{title}%")]: the title occurs in the
    row's title, letter case apart (a title is taken to hold no LIKE
    wildcard). *)
Definition ilike_title (title : str) (r : row) : bool :=
  Text.contains (Text.lower title) (Text.lower (row_title r)).

(** [select(...).<filter>.execute().data] *)
Definition select (f : row -> bool) (db : table) : list row := filter f db.

(** [delete().<filter>.execute()]: the rows deleted and the table left. *)
Definition delete (f : row -> bool) (db : table) : list row * table :=
  (filter f db, filter (fun r => negb (f r)) db).

End Store.

(** The dictionary returned by [delete_reminder]; [deleted_count] is [None]
    where the key is missing. *)
Record reply := Reply {
  success : bool;
  message : str;
  deleted_count : option nat
}.

(** The check mark of the success messages, the one character of the
    program's texts above 255, as its UTF-8 bytes. *)
Definition check_mark : str := s "✅".

(** The comprehension
    [[title for title in reminder_titles
      if any(word in title for word in title.split())]]:
    its variable [title] hides the parameter [title] of [delete_reminder]
    in the condition too, so a stored title is tested against its own
    words. *)
Definition suggestions_of (reminder_titles : list str) : list str :=
  filter (fun title =>
            existsb (fun word => Text.contains word title) (Text.split title))
         reminder_titles.

Definition delete_reminder (db : Store.table) (reminder_id title : option str)
  : reply * Store.table :=
  match reminder_id, title with
  | Some ((_ :: _) as reminder_id), _ =>
      let '(data, db') := Store.delete (Store.eq_id reminder_id) db in
      match data with
      | _ :: _ =>
          (Reply true (s "Reminder deleted successfully!")
                 (Some (List.length data)), db')
      | [] =>
          (Reply false (s "No reminder found with ID " ++ reminder_id) (Some 0),
           db')
      end
  | _, Some ((_ :: _) as title) =>
      let search_result := Store.select (Store.ilike_title title) db in
      let search_result :=
        match search_result with
        | [] => Store.select (Store.eq_title title) db
        | _ => search_result
        end in
      match search_result with
      | [] =>
          let all_reminders := Store.select (fun _ => true) db in
          let not_found :=
            Reply false (s "No reminder found matching '" ++ title ++ s "'")
                  None in
          match all_reminders with
          | _ :: _ =>
              let reminder_titles :=
                map (fun r => Text.lower (Store.row_title r)) all_reminders in
              let suggestions := suggestions_of reminder_titles in
              match suggestions with
              | _ :: _ =>
                  (Reply false
                     (s "No reminder found matching '" ++ title
                      ++ s "'. Did you mean: "
                      ++ Text.join (s ", ") (firstn 3 suggestions) ++ s "?")
                     None, db)
              | [] => (not_found, db)
              end
          | [] => (not_found, db)
          end
      | _ :: _ =>
          let '(data, db1) := Store.delete (Store.ilike_title title) db in
          let '(data, db2) :=
            match data with
            | [] => Store.delete (Store.eq_title title) db1
            | _ => (data, db1)
            end in
          let deleted_count := List.length data in
          match data with
          | [] =>
              (Reply false
                 (s "Failed to delete reminder matching '" ++ title ++ s "'")
                 None, db2)
          | [r] =>
              (Reply true
                 (check_mark ++ s " Reminder '" ++ Store.row_title r
                  ++ s "' deleted successfully!")
                 (Some deleted_count), db2)
          | _ =>
              (Reply true
                 (check_mark ++ s " "
                  ++ Num.str_of_int (Z.of_nat deleted_count)
                  ++ s " reminders matching '" ++ title
                  ++ s "' deleted successfully!")
                 (Some deleted_count), db2)
          end
      end
  | _, _ =>
      (Reply false
         (s "Please specify which reminder to delete by title or ID") None, db)
  end.

(** ** Reading a time stamp back *)

Module Stamp.

Import Clock.

Local Open Scope Z_scope.

(** [year % 4 == 0 and (year % 100 != 0 or year % 400 == 0)] *)
Definition is_leap (year : Z) : bool :=
  (year mod 4 =? 0) && (negb (year mod 100 =? 0) || (year mod 400 =? 0)).

(** The number of days before January 1st of [year]. *)
Definition days_before_year (year : Z) : Z :=
  let y := year - 1 in
  y * 365 + y / 4 - y / 100 + y / 400.

(** The number of days of [year] before the first of [month]. *)
Definition days_before_month (year month : Z) : Z :=
  DAYS_BEFORE_MONTH month + b2z ((2 <? month) && is_leap year).

(** [date(year, month, day).toordinal()] *)
Definition ymd2ord (year month day : Z) : Z :=
  days_before_year year + days_before_month year month + day.



(** The slice [t[i:j]]. *)
Definition slice (i j : nat) (t : str) : str := firstn (j - i) (skipn i t).

Definition date_part (t : str) : str := slice 0 10 t.

Definition time_part (t : str) : str := slice 11 19 t.

(** The ordinal of the date a stamp starts with. *)
Definition date_ordinal (t : str) : result Z :=
  y <- Num.int_of_str (slice 0 4 t) ;;
  m <- Num.int_of_str (slice 5 7 t) ;;
  dd <- Num.int_of_str (slice 8 10 t) ;;
  Ok (ymd2ord y m dd).

(** [HH:MM:SS] of a time of day. *)
Definition clock_text (h m sec : Z) : str :=
  pad2 h ++ s ":" ++ pad2 m ++ s ":" ++ pad2 sec.

End Stamp.

(** ** Sample surroundings *)

(** 2024-08-02 14:30:05.000123 as the current time. *)
Definition sample_now : Clock.datetime := Clock.DateTime 739100 14 30 5 123.

(** A calendar parser that knows three phrases of the year 2024 and refuses
    everything else. *)
Definition sample_parse (t : str) : result Clock.datetime :=
  if Text.eq_str t (s "August 15") then Ok (Clock.DateTime 739113 0 0 0 0)
  else if Text.eq_str t (s "August 15 3pm") then Ok (Clock.DateTime 739113 15 0 0 0)
  else if Text.eq_str t (s "September 1 at 18:45") then Ok (Clock.DateTime 739130 18 45 0 0)
  else Raise ValueError.

(** Does some whitespace-separated word of [a] occur as a word of [b]? *)
Definition shares_word (a b : str) : bool :=
  existsb (fun w => existsb (Text.eq_str w) (Text.split b)) (Text.split a).

(** ** Definitions used in the statements and proofs *)

(** Does a date phrase hold one of the relative keywords of [parse_date]? *)
Definition relative_keyword (date_str : str) : bool :=
  let date_str_lower := Text.lower date_str in
  Text.contains (s "today") date_str_lower
  || Text.contains (s "tomorrow") date_str_lower
  || Text.contains (s "next week") date_str_lower
  || Text.contains (s "next month") date_str_lower.

(** The same time of day [n] days later. *)
Definition days_later (t : Clock.datetime) (n : Z) : Clock.datetime :=
  Clock.DateTime (Clock.ordinal t + n) (Clock.hour t) (Clock.minute t)
                 (Clock.second t) (Clock.microsecond t).





(** Checking a property of every number below a bound. *)
Fixpoint all_below (f : nat -> bool) (n : nat) : bool :=
  match n with
  | O => true
  | S k => f k && all_below f k
  end.

(** The month and the day of the [n]-th day (from 0) of a year, the last
    step of [Clock.ord2ymd]. *)
Definition month_and_day (n : Z) (leapyear : bool) : Z * Z :=
  let month := Z.shiftr (n + 50) 5 in
  let preceding :=
    (Clock.DAYS_BEFORE_MONTH month
     + Clock.b2z ((2 <? month)%Z && leapyear))%Z in
  if (n <? preceding)%Z
  then
    let month := (month - 1)%Z in
    let preceding :=
      (preceding
       - (Clock.DAYS_IN_MONTH month
          + Clock.b2z ((month =? 2)%Z && leapyear)))%Z in
    (month, (n - preceding + 1)%Z)
  else (month, (n - preceding + 1)%Z).

Definition month_and_day_ok (leapyear : bool) (n : Z) : bool :=
  let '(m, dd) := month_and_day n leapyear in
  ((1 <=? m) && (m <=? 12) && (1 <=? dd) && (dd <=? 31)
   && (Clock.DAYS_BEFORE_MONTH m + Clock.b2z ((2 <? m) && leapyear) + dd
       =? n + 1))%Z.

Definition reads_as (t : str) (n : Z) : bool :=
  match Num.int_of_str t with
  | Ok v => (v =? n)%Z
  | Raise _ => false
  end.

Definition pad2_check (n : Z) : bool :=
  match Clock.pad2 n with
  | [a; b] => Text.is_digit a && Text.is_digit b && reads_as [a; b] n
  | _ => false
  end.

(** Four stored reminders for the title commands. *)
Definition sample_table : Store.table :=
  [Store.Row (s "1") (s "Rent Payment"); Store.Row (s "2") (s "Water Bill");
   Store.Row (s "3") (s "Gym"); Store.Row (s "4") (s "Phone Plan")].

(** ** What a pattern can match *)

Module ReSem.

Import Re.

Section Iter.

Variable P : mstate -> mstate -> Prop.

(** [n] matches of [P] in a row lead from [st] to [st']. *)
Fixpoint iter (n : nat) (st st' : mstate) : Prop :=
  match n with
  | O => st' = st
  | S n' => exists st1, P st st1 /\ iter n' st1 st'
  end.

End Iter.

Definition within (hi : option nat) (n : nat) : Prop :=
  match hi with
  | Some h => (n <= h)%nat
  | None => True
  end.

(** [matches ic r st st']: the pattern [r] can lead the matcher from the
    position [st] to the position [st'], whatever comes after it. *)
Fixpoint matches (ic : bool) (r : regex) (st st' : mstate) : Prop :=
  match r with
  | Eps => st' = st
  | Chr cs =>
      exists a tl,
        rest st = a :: tl /\ cset_mem ic cs a = true
        /\ st' = MState (Some a) tl (S (pos st)) (caps st)
  | Seq r1 r2 => exists st1, matches ic r1 st st1 /\ matches ic r2 st1 st'
  | Alt r1 r2 => matches ic r1 st st' \/ matches ic r2 st st'
  | Rep _ lo hi r1 =>
      exists n, (lo <= n)%nat /\ within hi n /\ iter (matches ic r1) n st st'
  | Grp i r1 => exists st1, matches ic r1 st st1 /\ st' = set_cap i st st1
  | WordB => at_boundary st = true /\ st' = st
  | Eos => at_end st = true /\ st' = st
  end.

(** The text between two positions of the matcher. *)
Definition consumed (st st' : mstate) : str :=
  firstn (pos st' - pos st) (rest st).

(** A match consumes a piece [w] of what is left of the subject. *)
Definition advances (st st' : mstate) : Prop :=
  exists w, rest st = w ++ rest st' /\ pos st' = (pos st + List.length w)%nat.

(** A position inside the subject [t]: the text before it and the text
    after it make up [t], and nothing is captured yet. *)
Definition inside (t : str) (st : mstate) : Prop :=
  exists pre, t = pre ++ rest st /\ pos st = List.length pre /\ caps st = [].

(** Patterns without a capturing group. *)
Fixpoint no_groups (r : regex) : bool :=
  match r with
  | Seq r1 r2 | Alt r1 r2 => no_groups r1 && no_groups r2
  | Rep _ _ _ r1 => no_groups r1
  | Grp _ _ => false
  | _ => true
  end.

(** Patterns without the capturing group [i]. *)
Fixpoint lacks (i : nat) (r : regex) : bool :=
  match r with
  | Seq r1 r2 | Alt r1 r2 => lacks i r1 && lacks i r2
  | Rep _ _ _ r1 => lacks i r1
  | Grp j r1 => negb (j =? i) && lacks i r1
  | _ => true
  end.

(** The pattern inside the group [i], when that group is one of the items
    of the sequence that [r] is. *)
Fixpoint spine_group (i : nat) (r : regex) : option regex :=
  match r with
  | Grp j r1 => if (j =? i) && lacks i r1 then Some r1 else None
  | Seq r1 r2 =>
      if lacks i r1 then spine_group i r2
      else if lacks i r2 then spine_group i r1 else None
  | _ => None
  end.

(** [reads ic r w]: at some position the pattern [r] can match exactly the
    text [w]. *)
Definition reads (ic : bool) (r : regex) (w : str) : Prop :=
  exists st st', matches ic r st st' /\ rest st = w ++ rest st'.

(** [q] is an item of the sequence that [r] is, possibly inside a group. *)
Fixpoint on_spine (q r : regex) : Prop :=
  r = q
  \/ match r with
     | Seq r1 r2 => on_spine q r1 \/ on_spine q r2
     | Grp _ r1 => on_spine q r1
     | _ => False
     end.

(** The text [w] is the literal [x], letter case apart when [ic] is set. *)
Definition same_text (ic : bool) (x w : str) : Prop :=
  if ic then Text.lower w = Text.lower x else w = x.

End ReSem.

(** ** Definitions used in the further properties *)

(** The [i]-th of [date_patterns], from 0. *)
Definition date_form (i : nat) : regex := nth i date_patterns Eps.

(** A decimal literal as the amount patterns capture it: digits, possibly
    followed by a point and two more digits. *)
Definition is_decimal (w : str) : bool :=
  match Num.split_point w with
  | (ip, None) => Num.all_digits ip && negb (List.length ip =? 0)
  | (ip, Some fp) =>
      Num.all_digits ip && negb (List.length ip =? 0)
      && Num.all_digits fp && (List.length fp =? 2)
  end.

(** The number that a decimal literal writes. *)
Definition decimal_value (w : str) : Q :=
  match Num.split_point w with
  | (ip, None) => inject_Z (Num.nat_digits ip)
  | (ip, Some fp) =>
      Qred (Qmake (Num.nat_digits (ip ++ fp)) (Num.pow10 (List.length fp)))
  end.





(** A text of digits, a separator, and more text ending with a digit. *)
Definition separated (w : str) : Prop :=
  exists ds c tl l b,
    w = ds ++ c :: tl /\ ds <> [] /\ Num.all_digits ds = true
    /\ (c = "-"%char \/ c = "/"%char)
    /\ w = l ++ [b] /\ Text.is_digit b = true.

(** The verbs of the delete patterns. *)
Definition delete_verbs : list str := map s ["delete"; "remove"; "cancel"]%string.





(** ** Marking, listing and creating reminders *)

Module Ledger.

(** A row of the table [payment_reminders] with the columns that the
    program writes. *)
Record reminder := Reminder {
  rem_id : str;
  rem_title : str;
  rem_due_date : str;
  rem_amount : Q;
  rem_category : option str;
  rem_recurrence : option str;
  rem_custom_recurrence_days : option Z;
  is_done : bool
}.

Definition ledger := list reminder.

(** The identifier and the title of a row, which the filters of [Store]
    look at. *)
Definition key (r : reminder) : Store.row :=
  Store.Row (rem_id r) (rem_title r).

(** The row after [update({"is_done": True})]. *)
Definition done (r : reminder) : reminder :=
  Reminder (rem_id r) (rem_title r) (rem_due_date r) (rem_amount r)
           (rem_category r) (rem_recurrence r) (rem_custom_recurrence_days r)
           true.

(** The update of a row under a filter. *)
Definition mark (f : Store.row -> bool) (r : reminder) : reminder :=
  if f (key r) then done r else r.

(** [update({"is_done": True}).<filter>.execute()]: the rows updated, as
    they are afterwards, and the table afterwards. *)
Definition update_done (f : Store.row -> bool) (db : ledger)
  : list reminder * ledger :=
  (map done (filter (fun r => f (key r)) db), map (mark f) db).

(** [mark_reminder_done]; the dictionary returned has no [deleted_count]. *)
Definition mark_reminder_done (db : ledger) (reminder_id title : option str)
  : reply * ledger :=
  match reminder_id, title with
  | Some ((_ :: _) as reminder_id), _ =>
      let '(data, db') := update_done (Store.eq_id reminder_id) db in
      match data with
      | _ :: _ => (Reply true (s "Reminder marked as done!") None, db')
      | [] =>
          (Reply false (s "No reminder found with ID " ++ reminder_id) None,
           db')
      end
  | _, Some ((_ :: _) as title) =>
      let '(data, db1) := update_done (Store.ilike_title title) db in
      let '(data, db2) :=
        match data with
        | [] => update_done (Store.eq_title title) db1
        | _ => (data, db1)
        end in
      match data with
      | [] =>
          (Reply false (s "No reminder found matching '" ++ title ++ s "'")
                 None, db2)
      | [r] =>
          (Reply true
             (check_mark ++ s " Reminder '" ++ rem_title r
              ++ s "' marked as done!") None, db2)
      | _ =>
          (Reply true
             (check_mark ++ s " "
              ++ Num.str_of_int (Z.of_nat (List.length data))
              ++ s " reminders marked as done!") None, db2)
      end
  | _, _ =>
      (Reply false (s "Please specify which reminder to mark as done") None,
       db)
  end.

Section Database.

(** [.order("due_date")]: the order in which the database returns rows. *)
Variable order_by_due_date : ledger -> ledger.

(** The identifier that the database gives to a new row. *)
Variable new_id : ledger -> str.




End Database.




End Ledger.

(** Three reminders, the second one done. *)
Definition sample_ledger : Ledger.ledger :=
  [Ledger.Reminder (s "1") (s "Rent Payment") (s "2024-09-01 09:00:00+00:00")
                   (1200 # 1) (Some (s "rent")) (Some (s "monthly")) None false;
   Ledger.Reminder (s "2") (s "Water Bill") (s "2024-08-10 09:00:00+00:00")
                   (81 # 2) (Some (s "water")) None None true;
   Ledger.Reminder (s "3") (s "Phone bill") (s "2024-08-20 18:45:00+00:00")
                   (30 # 1) (Some (s "phone")) None None false].

(** * Facts *)

(** ** Enumeration *)

Section Enumeration.

Local Open Scope Z_scope.

Lemma all_below_spec (f : nat -> bool) (n : nat) :
  all_below f n = true -> forall k, (k < n)%nat -> f k = true.
Proof.
  induction n as [|n IH]; simpl; intros H k Hk; [lia|].
  apply andb_true_iff in H. destruct H as [H1 H2].
  destruct (Nat.eq_dec k n) as [->|Hne]; [assumption|].
  apply IH; [assumption|lia].
Qed.

Lemma all_below_Z (f : Z -> bool) (n : Z) :
  all_below (fun k => f (Z.of_nat k)) (Z.to_nat n) = true ->
  forall z, 0 <= z < n -> f z = true.
Proof.
  intros H z Hz.
  rewrite <- (Z2Nat.id z) by lia.
  apply (all_below_spec (fun k => f (Z.of_nat k)) H). lia.
Qed.

End Enumeration.

(** ** The calendar: ordinals, dates and stamps *)

Module ClockFacts.

Import Clock Stamp.

Local Open Scope Z_scope.

Lemma month_and_day_common n : 0 <= n < 365 -> month_and_day_ok false n = true.
Proof. apply (@all_below_Z (month_and_day_ok false) 365). vm_compute. reflexivity. Qed.

Lemma month_and_day_leap n : 0 <= n < 366 -> month_and_day_ok true n = true.
Proof. apply (@all_below_Z (month_and_day_ok true) 366). vm_compute. reflexivity. Qed.

Lemma ord2ymd_eq n0 :
  ord2ymd n0 =
  let n := n0 - 1 in
  let n400 := n / 146097 in
  let r400 := n mod 146097 in
  let n100 := r400 / 36524 in
  let r100 := r400 mod 36524 in
  let n4 := r100 / 1461 in
  let r4 := r100 mod 1461 in
  let n1 := r4 / 365 in
  let r1 := r4 mod 365 in
  let year := n400 * 400 + 1 + n100 * 100 + n4 * 4 + n1 in
  if (n1 =? 4) || (n100 =? 4) then (year - 1, 12, 31)
  else
    let '(m, dd) := month_and_day r1 ((n1 =? 3) && (negb (n4 =? 24) || (n100 =? 3))) in
    (year, m, dd).
Proof.
  unfold ord2ymd, month_and_day. cbv zeta.
  destruct ((_ =? 4) || (_ =? 4)); [reflexivity|].
  match goal with |- (if ?c then _ else _) = _ => destruct c end; reflexivity.
Qed.


Lemma days_before_year_cycles q a b c :
  0 <= q -> 0 <= a <= 3 -> 0 <= b <= 24 -> 0 <= c <= 3 ->
  days_before_year (400 * q + 100 * a + 4 * b + c + 1)
  = 146097 * q + 36524 * a + 1461 * b + 365 * c.
Proof.
  intros Hq Ha Hb Hc. unfold days_before_year. cbv zeta.
  replace (400 * q + 100 * a + 4 * b + c + 1 - 1)
    with (400 * q + 100 * a + 4 * b + c) by lia.
  set (y := 400 * q + 100 * a + 4 * b + c).
  assert (y / 4 = 100 * q + 25 * a + b)
    by (symmetry; apply (Z.div_unique y 4 _ c); unfold y; lia).
  assert (y / 100 = 4 * q + a)
    by (symmetry; apply (Z.div_unique y 100 _ (4 * b + c)); unfold y; lia).
  assert (y / 400 = q)
    by (symmetry; apply (Z.div_unique y 400 _ (100 * a + 4 * b + c)); unfold y; lia).
  unfold y in *. lia.
Qed.

Lemma is_leap_cycles q a b c :
  0 <= q -> 0 <= a <= 3 -> 0 <= b <= 24 -> 0 <= c <= 3 ->
  is_leap (400 * q + 100 * a + 4 * b + c + 1)
  = (c =? 3) && (negb (b =? 24) || (a =? 3)).
Proof.
  intros Hq Ha Hb Hc. unfold is_leap.
  set (y := 400 * q + 100 * a + 4 * b + c + 1).
  assert (E4 : y mod 4 = (c + 1) mod 4).
  { unfold y.
    replace (400 * q + 100 * a + 4 * b + c + 1)
      with (c + 1 + (100 * q + 25 * a + b) * 4) by lia.
    apply Z.mod_add. lia. }
  assert (E100 : y mod 100 = (4 * b + c + 1) mod 100).
  { unfold y.
    replace (400 * q + 100 * a + 4 * b + c + 1)
      with (4 * b + c + 1 + (4 * q + a) * 100) by lia.
    apply Z.mod_add. lia. }
  assert (E400 : y mod 400 = (100 * a + 4 * b + c + 1) mod 400).
  { unfold y.
    replace (400 * q + 100 * a + 4 * b + c + 1)
      with (100 * a + 4 * b + c + 1 + q * 400) by lia.
    apply Z.mod_add. lia. }
  rewrite E4, E100, E400. clear E4 E100 E400 y.
  assert (a = 0 \/ a = 1 \/ a = 2 \/ a = 3) as Ha' by lia.
  assert (c = 0 \/ c = 1 \/ c = 2 \/ c = 3) as Hc' by lia.
  destruct (Z.eqb_spec c 3) as [Hc3|Hc3];
    destruct (Z.eqb_spec b 24) as [Hb24|Hb24];
    destruct (Z.eqb_spec a 3) as [Ha3|Ha3];
    cbn [andb orb negb];
    repeat match goal with
           | |- context [?x mod ?k =? 0] =>
               destruct (Z.eqb_spec (x mod k) 0)
           end;
    cbn [andb orb negb]; try reflexivity; exfalso;
    Z.div_mod_to_equations; lia.
Qed.

Lemma ord2ymd_spec n0 :
  1 <= n0 <= MAXORDINAL ->
  let '(y, m, dd) := ord2ymd n0 in
  1 <= y <= 9999 /\ 1 <= m <= 12 /\ 1 <= dd <= 31 /\ ymd2ord y m dd = n0.
Proof.
  unfold MAXORDINAL. intros Hn. rewrite ord2ymd_eq. cbv zeta.
  set (n := n0 - 1).
  assert (Hn' : 0 <= n <= 3652058) by (unfold n; lia).
  pose proof (Z.div_mod n 146097 ltac:(lia)) as E400.
  pose proof (Z.mod_pos_bound n 146097 ltac:(lia)) as B400.
  set (n400 := n / 146097) in *. set (r400 := n mod 146097) in *.
  pose proof (Z.div_mod r400 36524 ltac:(lia)) as E100.
  pose proof (Z.mod_pos_bound r400 36524 ltac:(lia)) as B100.
  set (n100 := r400 / 36524) in *. set (r100 := r400 mod 36524) in *.
  pose proof (Z.div_mod r100 1461 ltac:(lia)) as E4.
  pose proof (Z.mod_pos_bound r100 1461 ltac:(lia)) as B4.
  set (n4 := r100 / 1461) in *. set (r4 := r100 mod 1461) in *.
  pose proof (Z.div_mod r4 365 ltac:(lia)) as E1.
  pose proof (Z.mod_pos_bound r4 365 ltac:(lia)) as B1.
  set (n1 := r4 / 365) in *. set (r1 := r4 mod 365) in *.
  assert (0 <= n400 <= 24) by lia.
  assert (0 <= n100 <= 4) by lia.
  assert (0 <= n4 <= 24) by lia.
  assert (0 <= n1 <= 4) by lia.
  destruct (Z.eqb_spec n1 4) as [H14|H14]; simpl orb.
  - (* the last day of a leap year that ends a 4-year cycle *)
    assert (n100 <= 3 /\ n4 <= 23) as [? ?] by lia.
    replace (n400 * 400 + 1 + n100 * 100 + n4 * 4 + n1 - 1)
      with (400 * n400 + 100 * n100 + 4 * n4 + 3 + 1) by lia.
    unfold ymd2ord, days_before_month.
    rewrite days_before_year_cycles, is_leap_cycles by lia.
    destruct (Z.eqb_spec n4 24); [lia|].
    change (DAYS_BEFORE_MONTH 12) with 334.
    change (b2z ((2 <? 12) && ((3 =? 3) && (negb false || (n100 =? 3))))) with 1.
    lia.
  - destruct (Z.eqb_spec n100 4) as [H1004|H1004].
    + (* the last day of a 400-year cycle *)
      assert (n4 = 0 /\ n1 = 0 /\ r1 = 0) as (? & ? & ?) by lia.
      replace (n400 * 400 + 1 + n100 * 100 + n4 * 4 + n1 - 1)
        with (400 * n400 + 100 * 3 + 4 * 24 + 3 + 1) by lia.
      unfold ymd2ord, days_before_month.
      rewrite days_before_year_cycles, is_leap_cycles by lia.
      change (DAYS_BEFORE_MONTH 12) with 334.
      change (b2z ((2 <? 12) && ((3 =? 3) && (negb (24 =? 24) || (3 =? 3))))) with 1.
      lia.
    + set (leapyear := (n1 =? 3) && (negb (n4 =? 24) || (n100 =? 3))).
      assert (Hmd : month_and_day_ok leapyear r1 = true).
      { destruct leapyear eqn:El.
        - apply month_and_day_leap. lia.
        - apply month_and_day_common. lia. }
      unfold month_and_day_ok in Hmd.
      destruct (month_and_day r1 leapyear) as [m dd].
      repeat rewrite andb_true_iff in Hmd.
      destruct Hmd as [[[[Hm1 Hm2] Hd1] Hd2] Hsum].
      apply Z.leb_le in Hm1, Hm2, Hd1, Hd2. apply Z.eqb_eq in Hsum.
      replace (n400 * 400 + 1 + n100 * 100 + n4 * 4 + n1)
        with (400 * n400 + 100 * n100 + 4 * n4 + n1 + 1) by lia.
      unfold ymd2ord, days_before_month.
      rewrite days_before_year_cycles, is_leap_cycles by lia.
      fold leapyear. lia.
Qed.

Lemma reads_as_spec t n : reads_as t n = true -> Num.int_of_str t = Ok n.
Proof.
  unfold reads_as. destruct (Num.int_of_str t); [|discriminate].
  intros H. apply Z.eqb_eq in H. now subst.
Qed.

Lemma pad2_shape n :
  0 <= n < 100 ->
  exists a b, pad2 n = [a; b] /\ Text.is_digit a = true
              /\ Text.is_digit b = true /\ Num.int_of_str [a; b] = Ok n.
Proof.
  intros Hn.
  assert (H : pad2_check n = true).
  { apply (@all_below_Z pad2_check 100); [vm_compute; reflexivity | lia]. }
  unfold pad2_check in H.
  destruct (pad2 n) as [|a [|b [|c l]]]; try discriminate.
  repeat rewrite andb_true_iff in H. destruct H as [[Ha Hb] Hr].
  exists a, b. auto using reads_as_spec.
Qed.

Lemma digit_char_facts x :
  Text.is_digit (Num.digit_char x) = true
  /\ Text.is_space (Num.digit_char x) = false
  /\ Text.eqc (Num.digit_char x) "-" = false
  /\ Text.eqc (Num.digit_char x) "+" = false
  /\ Num.digit_val (Num.digit_char x) = x mod 10.
Proof.
  unfold Num.digit_char.
  pose proof (Z.mod_pos_bound x 10 ltac:(lia)) as Hb.
  set (r := x mod 10) in *.
  assert (Hr : r = 0 \/ r = 1 \/ r = 2 \/ r = 3 \/ r = 4 \/ r = 5 \/ r = 6
               \/ r = 7 \/ r = 8 \/ r = 9) by lia.
  repeat (destruct Hr as [Hr|Hr]; [rewrite Hr; vm_compute; auto|]).
  rewrite Hr. vm_compute. auto.
Qed.

Lemma digits_of_step fuel n acc :
  Num.digits_of (S fuel) n acc
  = if n <? 10 then Num.digit_char n :: acc
    else Num.digits_of fuel (n / 10) (Num.digit_char n :: acc).
Proof. reflexivity. Qed.

Lemma digit_char_zero n : 0 <= n < 10 -> Num.digit_char (n / 10) = "0"%char.
Proof. intros H. now rewrite Z.div_small. Qed.

(** The four characters of a year. *)
Lemma pad4_digits n :
  0 <= n < 10000 ->
  pad4 n = [Num.digit_char (n / 1000); Num.digit_char (n / 100);
            Num.digit_char (n / 10); Num.digit_char n].
Proof.
  intros Hn. unfold pad4, Num.str_of_int.
  assert (H1000 : n / 1000 = n / 10 / 10 / 10)
    by (rewrite !Z.div_div by lia; reflexivity).
  assert (H100 : n / 100 = n / 10 / 10)
    by (rewrite !Z.div_div by lia; reflexivity).
  rewrite H1000, H100.
  destruct (Z.ltb_spec n 10) as [L1|L1].
  { rewrite digits_of_step.
    destruct (Z.ltb_spec n 10); [|lia].
    rewrite (Z.div_small n 10) by lia. reflexivity. }
  assert (3 <= Z.log2 n) by (apply Z.log2_le_pow2; lia).
  destruct (Z.to_nat (Z.log2 n)) as [|f1] eqn:E1; [lia|].
  rewrite digits_of_step.
  destruct (Z.ltb_spec n 10); [lia|].
  assert (1 <= n / 10 < 1000) by (Z.div_mod_to_equations; lia).
  rewrite digits_of_step.
  destruct (Z.ltb_spec (n / 10) 10) as [L2|L2].
  { rewrite (Z.div_small (n / 10) 10) by lia. reflexivity. }
  assert (6 <= Z.log2 n)
    by (apply Z.log2_le_pow2; [lia|]; change (2 ^ 6) with 64; Z.div_mod_to_equations; lia).
  destruct f1 as [|f2]; [lia|].
  assert (1 <= n / 10 / 10 < 100) by (Z.div_mod_to_equations; lia).
  rewrite digits_of_step.
  destruct (Z.ltb_spec (n / 10 / 10) 10) as [L3|L3].
  { rewrite (Z.div_small (n / 10 / 10) 10) by lia. reflexivity. }
  assert (9 <= Z.log2 n)
    by (apply Z.log2_le_pow2; [lia|]; change (2 ^ 9) with 512; Z.div_mod_to_equations; lia).
  destruct f2 as [|f3]; [lia|].
  assert (1 <= n / 10 / 10 / 10 < 10) by (Z.div_mod_to_equations; lia).
  rewrite digits_of_step.
  destruct (Z.ltb_spec (n / 10 / 10 / 10) 10); [|lia].
  reflexivity.
Qed.

(** [int] reads four decimal digits back. *)
Lemma int_of_four_digits a b c e :
  Num.int_of_str [Num.digit_char a; Num.digit_char b; Num.digit_char c;
                  Num.digit_char e]
  = Ok (1000 * (a mod 10) + 100 * (b mod 10) + 10 * (c mod 10) + e mod 10).
Proof.
  destruct (digit_char_facts a) as (Da & Sa & Ma & Pa & Va).
  destruct (digit_char_facts b) as (Db & _ & _ & _ & Vb).
  destruct (digit_char_facts c) as (Dc & _ & _ & _ & Vc).
  destruct (digit_char_facts e) as (De & Se & _ & _ & Ve).
  unfold Num.int_of_str, Text.strip, Text.strip_by.
  cbn [Text.lstrip_by]. rewrite Sa.
  cbn [rev app Text.lstrip_by]. rewrite Se.
  cbn [rev app]. rewrite Ma, Pa.
  cbn [Num.digits_val]. rewrite Da, Db, Dc, De, Va, Vb, Vc, Ve.
  f_equal. lia.
Qed.

Lemma pad4_shape n :
  0 <= n < 10000 ->
  exists a b c e, pad4 n = [a; b; c; e] /\ Text.is_digit a = true
              /\ Text.is_digit b = true /\ Text.is_digit c = true
              /\ Text.is_digit e = true /\ Num.int_of_str [a; b; c; e] = Ok n.
Proof.
  intros Hn. rewrite (pad4_digits Hn).
  do 4 eexists. split; [reflexivity|].
  repeat split; try apply digit_char_facts.
  rewrite int_of_four_digits. f_equal.
  Z.div_mod_to_equations. lia.
Qed.

Lemma valid_bounds t :
  valid t ->
  1 <= ordinal t <= MAXORDINAL /\ 0 <= hour t < 24 /\ 0 <= minute t < 60
  /\ 0 <= second t < 60 /\ 0 <= microsecond t < 1000000.
Proof.
  unfold valid, validb. intros H.
  repeat rewrite andb_true_iff in H.
  repeat match goal with H : _ /\ _ |- _ => destruct H end.
  repeat match goal with
         | H : (_ <=? _) = true |- _ => apply Z.leb_le in H
         | H : (_ <? _) = true |- _ => apply Z.ltb_lt in H
         end.
  lia.
Qed.

(** The stamp of a valid [datetime], character by character. *)
Lemma strftime_shape t :
  valid t ->
  exists y1 y2 y3 y4 m1 m2 d1 d2 h1 h2 i1 i2 s1 s2,
    strftime t =
      [y1; y2; y3; y4; "-"; m1; m2; "-"; d1; d2; " "; h1; h2; ":"; i1; i2;
       ":"; s1; s2; "+"; "0"; "0"; ":"; "0"; "0"]%char
    /\ forallb Text.is_digit [y1; y2; y3; y4; m1; m2; d1; d2; h1; h2; i1; i2; s1; s2]
       = true
    /\ pad2 (hour t) = [h1; h2] /\ pad2 (minute t) = [i1; i2]
    /\ pad2 (second t) = [s1; s2]
    /\ (let '(y, m, dd) := ord2ymd (ordinal t) in
        Num.int_of_str [y1; y2; y3; y4] = Ok y
        /\ Num.int_of_str [m1; m2] = Ok m /\ Num.int_of_str [d1; d2] = Ok dd).
Proof.
  intros Hv. apply valid_bounds in Hv.
  destruct Hv as (Ho & Hh & Hm & Hs & _).
  pose proof (@ord2ymd_spec (ordinal t) Ho) as Hymd.
  unfold strftime.
  destruct (ord2ymd (ordinal t)) as [[y m] dd].
  destruct Hymd as (Hy & Hmo & Hd & _).
  destruct (@pad4_shape y ltac:(lia)) as (y1 & y2 & y3 & y4 & -> & ? & ? & ? & ? & ?).
  destruct (@pad2_shape m ltac:(lia)) as (m1 & m2 & -> & ? & ? & ?).
  destruct (@pad2_shape dd ltac:(lia)) as (d1 & d2 & -> & ? & ? & ?).
  destruct (@pad2_shape (hour t) ltac:(lia)) as (h1 & h2 & -> & ? & ? & ?).
  destruct (@pad2_shape (minute t) ltac:(lia)) as (i1 & i2 & -> & ? & ? & ?).
  destruct (@pad2_shape (second t) ltac:(lia)) as (s1 & s2 & -> & ? & ? & ?).
  exists y1, y2, y3, y4, m1, m2, d1, d2, h1, h2, i1, i2, s1, s2.
  repeat split; try assumption; try reflexivity.
  cbn [forallb].
  repeat match goal with H : Text.is_digit _ = true |- _ => rewrite H; clear H end.
  reflexivity.
Qed.


Lemma strftime_time_part t :
  valid t ->
  time_part (strftime t) = clock_text (hour t) (minute t) (second t).
Proof.
  intros Hv.
  destruct (strftime_shape Hv)
    as (y1 & y2 & y3 & y4 & m1 & m2 & d1 & d2 & h1 & h2 & i1 & i2 & s1 & s2
        & -> & _ & Hh & Hm & Hs & _).
  unfold clock_text. rewrite Hh, Hm, Hs. reflexivity.
Qed.

Lemma strftime_date_ordinal t :
  valid t -> date_ordinal (strftime t) = Ok (ordinal t).
Proof.
  intros Hv.
  destruct (strftime_shape Hv)
    as (y1 & y2 & y3 & y4 & m1 & m2 & d1 & d2 & h1 & h2 & i1 & i2 & s1 & s2
        & -> & _ & _ & _ & _ & Hr).
  pose proof (@ord2ymd_spec (ordinal t)) as Hymd.
  apply valid_bounds in Hv. destruct Hv as (Ho & _).
  specialize (Hymd Ho).
  destruct (ord2ymd (ordinal t)) as [[y m] dd].
  destruct Hr as (Ry & Rm & Rd). destruct Hymd as (_ & _ & _ & Hord).
  unfold date_ordinal, slice.
  cbn [skipn firstn Nat.sub].
  rewrite Ry. cbn [bind]. rewrite Rm. cbn [bind]. rewrite Rd. cbn [bind].
  now rewrite Hord.
Qed.

End ClockFacts.

(** ** The matcher on runs of digits *)

Module ReFacts.



Lemma rep_loop_eq body greedy lo hi k fuel n st0 :
  rep_loop body greedy lo hi k fuel n st0 =
  let more (_ : unit) :=
    match fuel with
    | O => None
    | S fuel' =>
        if under hi n
        then body st0
               (fun st1 =>
                  if (n <? lo)%nat || (pos st0 <? pos st1)%nat
                  then rep_loop body greedy lo hi k fuel' (S n) st1
                  else None)
        else None
    end in
  let stop (_ : unit) := if (lo <=? n)%nat then k st0 else None in
  if greedy
  then match more tt with Some m => Some m | None => stop tt end
  else match stop tt with Some m => Some m | None => more tt end.
Proof. destruct fuel; reflexivity. Qed.

Lemma chr_step ic cs p a tl q c k :
  cset_mem ic cs a = true ->
  rmatch ic (Chr cs) (MState p (a :: tl) q c) k
  = k (MState (Some a) tl (S q) c).
Proof. intros H. cbn [rmatch rest pos caps]. now rewrite H. Qed.




Lemma rmatch_Seq ic r1 r2 st k :
  rmatch ic (Seq r1 r2) st k = rmatch ic r1 st (fun st1 => rmatch ic r2 st1 k).
Proof. reflexivity. Qed.

Lemma rmatch_Rep ic g lo hi r st k :
  rmatch ic (Rep g lo hi r) st k
  = rep_loop (rmatch ic r) g lo hi k (lo + List.length (rest st)) 0 st.
Proof. reflexivity. Qed.

Lemma rmatch_Grp ic i r st k :
  rmatch ic (Grp i r) st k = rmatch ic r st (fun st1 => k (set_cap i st st1)).
Proof. reflexivity. Qed.



Lemma firstn_app_exact (A : Type) (l1 l2 : list A) :
  firstn (List.length l1) (l1 ++ l2) = l1.
Proof. induction l1; cbn; [reflexivity|now f_equal]. Qed.


Lemma all_digits_no_point ds :
  Num.all_digits ds = true -> Num.split_point ds = (ds, None).
Proof.
  induction ds as [|a ds IH]; [reflexivity|].
  cbn [Num.all_digits Num.split_point]. intros H.
  apply andb_true_iff in H. destruct H as [Ha Hd].
  assert (Text.eqc a "." = false) as ->.
  { destruct (Text.eqc a ".") eqn:E; [|reflexivity].
    apply Ascii.eqb_eq in E. subst a. discriminate Ha. }
  now rewrite (IH Hd).
Qed.






End ReFacts.

(** ** The resolver *)

Module ResolverFacts.

Import Clock Stamp ClockFacts.

Local Open Scope Z_scope.

Lemma add_days_in_range t n :
  valid t -> 0 <= n <= 999999999 -> ordinal t + n <= MAXORDINAL ->
  add_days t n = Ok (days_later t n) /\ valid (days_later t n).
Proof.
  intros Hv Hn Hmax. pose proof (valid_bounds Hv) as (Ho & Hh & Hm & Hs & Hu).
  unfold add_days, days_later.
  destruct (Z.ltb_spec 999999999 (Z.abs n)); [lia|].
  destruct (Z.ltb_spec 0 (ordinal t + n)); [|lia].
  destruct (Z.leb_spec (ordinal t + n) MAXORDINAL); [|lia].
  split; [reflexivity|].
  unfold valid, validb. cbn [ordinal hour minute second microsecond].
  repeat rewrite andb_true_iff.
  repeat split; first [apply Z.leb_le | apply Z.ltb_lt]; lia.
Qed.


Section Resolver.

Variable now : datetime.
Variable calendar_parse : str -> result datetime.

Hypothesis now_valid : valid now.

Lemma parse_date_today :
  parse_date now calendar_parse (s "today") = Ok (strftime now).
Proof. reflexivity. Qed.

Lemma parse_date_tomorrow :
  ordinal now + 1 <= MAXORDINAL ->
  parse_date now calendar_parse (s "tomorrow") = Ok (strftime (days_later now 1)).
Proof.
  intros H. destruct (add_days_in_range now_valid (n := 1)) as [E _]; [lia|lia|].
  unfold parse_date.
  change (Text.contains (s "today") (Text.lower (s "tomorrow"))) with false.
  change (Text.contains (s "tomorrow") (Text.lower (s "tomorrow"))) with true.
  cbv iota. rewrite E. reflexivity.
Qed.

Lemma parse_date_next_week :
  ordinal now + 7 <= MAXORDINAL ->
  parse_date now calendar_parse (s "next week") = Ok (strftime (days_later now 7)).
Proof.
  intros H. destruct (add_days_in_range now_valid (n := 7)) as [E _]; [lia|lia|].
  unfold parse_date.
  change (Text.contains (s "today") (Text.lower (s "next week"))) with false.
  change (Text.contains (s "tomorrow") (Text.lower (s "next week"))) with false.
  change (Text.contains (s "next week") (Text.lower (s "next week"))) with true.
  cbv iota. rewrite E. reflexivity.
Qed.

Lemma parse_date_next_month :
  ordinal now + 30 <= MAXORDINAL ->
  parse_date now calendar_parse (s "next month") = Ok (strftime (days_later now 30)).
Proof.
  intros H. destruct (add_days_in_range now_valid (n := 30)) as [E _]; [lia|lia|].
  unfold parse_date.
  change (Text.contains (s "today") (Text.lower (s "next month"))) with false.
  change (Text.contains (s "tomorrow") (Text.lower (s "next month"))) with false.
  change (Text.contains (s "next week") (Text.lower (s "next month"))) with false.
  change (Text.contains (s "next month") (Text.lower (s "next month"))) with true.
  cbv iota. rewrite E. reflexivity.
Qed.

(** What [parse_date] does once no relative keyword is found. *)
Lemma parse_date_calendar date_str :
  relative_keyword date_str = false ->
  parse_date now calendar_parse date_str =
  match calendar_parse date_str with
  | Ok parsed_date =>
      Ok (strftime (if is_midnight parsed_date
                    then replace_hour parsed_date 9 else parsed_date))
  | Raise _ => t <- add_days now 1 ;; Ok (strftime t)
  end.
Proof.
  unfold relative_keyword. cbv zeta. intros H.
  repeat (apply orb_false_iff in H; destruct H as [H ?]).
  unfold parse_date. cbv zeta.
  repeat match goal with E : Text.contains _ _ = false |- _ => rewrite E; clear E end.
  destruct (calendar_parse date_str); reflexivity.
Qed.

End Resolver.

End ResolverFacts.

(** ** The field extractor on the phrases of the claims *)

Module ExtractFacts.

Import Clock Stamp ClockFacts ResolverFacts.

Lemma Ok_inj (A : Type) (a b : A) : Ok a = Ok b -> a = b.
Proof. intros E. now injection E. Qed.

Lemma strftime_nonempty t : strftime t <> [].
Proof.
  unfold strftime. destruct (ord2ymd (ordinal t)) as [[y m] dd].
  intros H. apply app_eq_nil in H. destruct H as [_ H].
  discriminate H.
Qed.


Section Extractor.

Variable now : datetime.
Variable calendar_parse : str -> result datetime.





Lemma extract_amount_default patterns text :
  (forall p, In p patterns -> Re.search true p text = None) ->
  extract_amount patterns text = 0%Q.
Proof.
  induction patterns as [|p ps IH]; intros H; [reflexivity|].
  cbn [extract_amount]. rewrite (H p (or_introl eq_refl)).
  apply IH. intros q Hq. apply H. now right.
Qed.



End Extractor.

End ExtractFacts.

(** ** Facts about the [str] methods *)

Module TextFacts.

Import Text.

Lemma eqc_eq a b : eqc a b = true -> a = b.
Proof. apply Ascii.eqb_eq. Qed.

Lemma eqc_refl a : eqc a a = true.
Proof. apply Ascii.eqb_refl. Qed.

Lemma eq_str_eq a : forall b, eq_str a b = true -> a = b.
Proof.
  induction a as [|x a IH]; intros [|y b] H; cbn [eq_str] in H;
    try discriminate; [reflexivity|].
  apply andb_true_iff in H. destruct H as [H1 H2].
  now rewrite (@eqc_eq _ _ H1), (IH _ H2).
Qed.

Lemma eq_str_refl a : eq_str a a = true.
Proof.
  induction a as [|x a IH]; [reflexivity|].
  cbn [eq_str]. now rewrite eqc_refl, IH.
Qed.

Lemma starts_with_app p : forall t, starts_with p (p ++ t) = true.
Proof.
  induction p as [|x p IH]; intros t; [now destruct t|].
  cbn [app starts_with]. now rewrite eqc_refl, IH.
Qed.


Lemma contains_here p t : starts_with p t = true -> contains p t = true.
Proof. intros H. destruct t; cbn [contains]; now rewrite H. Qed.

Lemma contains_later p a t : contains p t = true -> contains p (a :: t) = true.
Proof. intros H. cbn [contains]. rewrite H. apply orb_true_r. Qed.

(** [p in t] holds when [p] is a piece of [t] ... *)
Lemma contains_piece p pre : forall post, contains p (pre ++ p ++ post) = true.
Proof.
  induction pre as [|a pre IH]; intros post.
  - cbn [app]. apply contains_here, starts_with_app.
  - cbn [app]. apply contains_later, IH.
Qed.


Lemma contains_refl p : contains p p = true.
Proof.
  pose proof (contains_piece p [] []) as H. cbn [app] in H.
  now rewrite app_nil_r in H.
Qed.


Lemma lower_app a b : lower (a ++ b) = lower a ++ lower b.
Proof. apply map_app. Qed.

Lemma lower_char_idem c : lower_char (lower_char c) = lower_char c.
Proof. destruct c as [[] [] [] [] [] [] [] []]; reflexivity. Qed.

Lemma lower_idem t : lower (lower t) = lower t.
Proof.
  unfold lower. rewrite map_map. apply map_ext. intros c. apply lower_char_idem.
Qed.

(** A piece of a text, letter case apart, is a piece of its lower case. *)
Lemma contains_lower_piece p pre w post :
  lower w = p -> contains p (lower (pre ++ w ++ post)) = true.
Proof.
  intros <-. rewrite !lower_app. apply contains_piece.
Qed.

(** *** Stripping *)

Lemma lstrip_by_head f t a l : lstrip_by f t = a :: l -> f a = false.
Proof.
  induction t as [|c t IH]; cbn [lstrip_by]; [discriminate|].
  destruct (f c) eqn:E; [exact IH|]. intros H. injection H as <- _. exact E.
Qed.

Lemma lstrip_by_keep f a l : f a = false -> lstrip_by f (a :: l) = a :: l.
Proof. intros H. cbn [lstrip_by]. now rewrite H. Qed.

Lemma lstrip_by_suffix f t : exists pre, t = pre ++ lstrip_by f t.
Proof.
  induction t as [|c t [pre IH]]; cbn [lstrip_by]; [now exists []|].
  destruct (f c); [|now exists []].
  exists (c :: pre). cbn [app]. now rewrite <- IH.
Qed.

(** Nothing is stripped from a text that begins and ends with characters
    outside the set. *)
Lemma strip_by_keep f a l b :
  f a = false -> f b = false -> strip_by f (a :: l ++ [b]) = a :: l ++ [b].
Proof.
  intros Ha Hb. unfold strip_by. rewrite lstrip_by_keep by assumption.
  change (a :: l ++ [b]) with ((a :: l) ++ [b]).
  rewrite rev_app_distr. cbn [rev app].
  rewrite lstrip_by_keep by assumption.
  change (b :: rev l ++ [a]) with ([b] ++ rev (a :: l)).
  rewrite rev_app_distr, rev_involutive. reflexivity.
Qed.


Lemma strip_by_keep_one f a : f a = false -> strip_by f [a] = [a].
Proof.
  intros Ha. unfold strip_by. rewrite lstrip_by_keep by assumption.
  cbn [rev app]. now rewrite lstrip_by_keep by assumption.
Qed.

(** What is left after stripping begins and ends outside the set. *)
Lemma strip_by_first f t a l : strip_by f t = a :: l -> f a = false.
Proof.
  unfold strip_by. intros H.
  destruct (lstrip_by_suffix f (rev (lstrip_by f t))) as [pre Hp].
  assert (Hr : lstrip_by f t = rev (lstrip_by f (rev (lstrip_by f t))) ++ rev pre).
  { rewrite <- rev_app_distr, <- Hp. now rewrite rev_involutive. }
  rewrite H in Hr. cbn [app] in Hr. eapply lstrip_by_head; exact Hr.
Qed.

Lemma strip_by_last f t l b : strip_by f t = l ++ [b] -> f b = false.
Proof.
  unfold strip_by. intros H.
  apply (f_equal (@rev ascii)) in H.
  rewrite rev_involutive, rev_app_distr in H. cbn [rev app] in H.
  eapply lstrip_by_head; exact H.
Qed.

Lemma strip_by_idem f t : strip_by f (strip_by f t) = strip_by f t.
Proof.
  destruct (strip_by f t) as [|a l] eqn:E; [reflexivity|].
  destruct (exists_last (l := a :: l) ltac:(discriminate)) as (l' & b & El).
  assert (Ha : f a = false) by (eapply strip_by_first; exact E).
  rewrite El in E. assert (Hb : f b = false) by (eapply strip_by_last; exact E).
  destruct l' as [|a' l'].
  - cbn [app] in El. injection El as -> ->. now apply strip_by_keep_one.
  - cbn [app] in El. injection El as -> ->. now apply strip_by_keep.
Qed.

(** Every character of a stripped text is one of the text. *)
Lemma lstrip_by_Forall (P : ascii -> Prop) f t :
  Forall P t -> Forall P (lstrip_by f t).
Proof.
  intros H. destruct (lstrip_by_suffix f t) as [pre Hp].
  rewrite Hp in H. now apply Forall_app in H.
Qed.

Lemma strip_by_Forall (P : ascii -> Prop) f t :
  Forall P t -> Forall P (strip_by f t).
Proof.
  intros H. unfold strip_by.
  apply Forall_rev, lstrip_by_Forall, Forall_rev, lstrip_by_Forall, H.
Qed.

End TextFacts.

(** ** The matcher finds only what the pattern can match *)

Module ReSound.

Import Re ReSem ReFacts.

Lemma orelse_some (A : Type) (o1 o2 : option A) r :
  match o1 with Some m => Some m | None => o2 end = Some r ->
  o1 = Some r \/ o2 = Some r.
Proof. destruct o1; auto. Qed.

Section Loop.

Variable body : mstate -> (mstate -> option mstate) -> option mstate.
Variable P : mstate -> mstate -> Prop.

Hypothesis body_sound :
  forall st k res, body st k = Some res -> exists st1, P st st1 /\ k st1 = Some res.

Lemma rep_loop_sound greedy lo hi k res :
  forall fuel n st0,
    within hi n ->
    rep_loop body greedy lo hi k fuel n st0 = Some res ->
    exists m st1,
      iter P m st0 st1 /\ (lo <= n + m)%nat /\ within hi (n + m)
      /\ k st1 = Some res.
Proof.
  assert (Hstop : forall n st0,
            within hi n ->
            (if (lo <=? n)%nat then k st0 else None) = Some res ->
            exists m st1,
              iter P m st0 st1 /\ (lo <= n + m)%nat /\ within hi (n + m)
              /\ k st1 = Some res).
  { intros n st0 Hn H. destruct (Nat.leb_spec lo n); [|discriminate].
    exists 0%nat, st0. rewrite Nat.add_0_r. cbn [iter]. auto. }
  induction fuel as [|fuel IH]; intros n st0 Hn H;
    rewrite rep_loop_eq in H; cbv zeta in H.
  - destruct greedy; [exact (Hstop n st0 Hn H)|].
    apply orelse_some in H. destruct H as [H|H]; [|discriminate].
    exact (Hstop n st0 Hn H).
  - assert (Hmore : (if under hi n
                     then body st0
                            (fun st1 =>
                               if (n <? lo)%nat || (pos st0 <? pos st1)%nat
                               then rep_loop body greedy lo hi k fuel (S n) st1
                               else None)
                     else None) = Some res ->
                    exists m st1,
                      iter P m st0 st1 /\ (lo <= n + m)%nat
                      /\ within hi (n + m) /\ k st1 = Some res).
    { destruct (under hi n) eqn:Eu; [|discriminate]. intros Hb.
      apply body_sound in Hb. destruct Hb as (st1 & H1 & Hk).
      destruct ((n <? lo)%nat || (pos st0 <? pos st1)%nat); [|discriminate].
      assert (Hn' : within hi (S n)).
      { destruct hi as [h|]; [|exact I]. cbn [under within] in *.
        apply Nat.ltb_lt in Eu. lia. }
      destruct (IH (S n) st1 Hn' Hk) as (m & st2 & Hi & Hlo & Hhi & Hk2).
      exists (S m), st2. cbn [iter].
      replace (n + S m)%nat with (S n + m)%nat by lia. eauto 6. }
    destruct greedy; apply orelse_some in H; destruct H as [H|H];
      first [exact (Hmore H) | exact (Hstop n st0 Hn H)].
Qed.

End Loop.

(** Whatever [rmatch] hands to its continuation is a position the pattern
    can reach. *)
Theorem rmatch_sound ic r :
  forall st k res,
    rmatch ic r st k = Some res ->
    exists st1, matches ic r st st1 /\ k st1 = Some res.
Proof.
  induction r as [|cs|r1 IH1 r2 IH2|r1 IH1 r2 IH2|g lo hi r1 IH1|i r1 IH1| |];
    intros st k res H.
  - exists st. split; [reflexivity|exact H].
  - cbn [rmatch] in H. destruct (rest st) as [|a tl] eqn:Er; [discriminate|].
    destruct (cset_mem ic cs a) eqn:Ec; [|discriminate].
    eexists. split; [|exact H]. cbn [matches]. eauto.
  - rewrite rmatch_Seq in H. apply IH1 in H. destruct H as (st1 & H1 & H).
    apply IH2 in H. destruct H as (st2 & H2 & H).
    exists st2. split; [|exact H]. cbn [matches]. eauto.
  - cbn [rmatch] in H. destruct (rmatch ic r1 st k) eqn:E1.
    + injection H as <-. apply IH1 in E1. destruct E1 as (st1 & H1 & Hk).
      exists st1. split; [left; exact H1|exact Hk].
    + apply IH2 in H. destruct H as (st1 & H1 & Hk).
      exists st1. split; [right; exact H1|exact Hk].
  - rewrite rmatch_Rep in H.
    apply (@rep_loop_sound (rmatch ic r1) (matches ic r1) IH1) in H.
    + destruct H as (m & st1 & Hi & Hlo & Hhi & Hk).
      exists st1. split; [|exact Hk]. cbn [matches]. exists m. auto.
    + destruct hi; cbn [within]; [lia|exact I].
  - rewrite rmatch_Grp in H. apply IH1 in H. destruct H as (st1 & H1 & Hk).
    eexists. split; [|exact Hk]. cbn [matches]. eauto.
  - cbn [rmatch] in H. destruct (at_boundary st) eqn:E; [|discriminate].
    exists st. cbn [matches]. auto.
  - cbn [rmatch] in H. destruct (at_end st) eqn:E; [|discriminate].
    exists st. cbn [matches]. auto.
Qed.

Lemma match_at_sound ic r st m :
  match_at ic r st = Some m ->
  exists st1, matches ic r st st1
              /\ m = MatchObj (pos st) (pos st1) (caps st1).
Proof.
  unfold match_at. destruct (rmatch ic r st (fun st1 => Some st1)) eqn:E;
    [|discriminate].
  intros H. injection H as <-.
  apply rmatch_sound in E. destruct E as (st1 & H1 & Hk).
  injection Hk as <-. eauto.
Qed.

Lemma search_from_sound ic r t m :
  forall fuel st,
    inside t st ->
    search_from ic r fuel st = Some m ->
    exists st0 st1,
      inside t st0 /\ matches ic r st0 st1
      /\ m = MatchObj (pos st0) (pos st1) (caps st1).
Proof.
  induction fuel as [|fuel IH]; intros st Hin H; cbn [search_from] in H.
  - destruct (match_at ic r st) eqn:E; [|discriminate].
    injection H as <-. apply match_at_sound in E.
    destruct E as (st1 & H1 & ->). eauto.
  - destruct (match_at ic r st) eqn:E.
    + injection H as <-. apply match_at_sound in E.
      destruct E as (st1 & H1 & ->). eauto.
    + unfold step in H. destruct (rest st) as [|a tl] eqn:Er; [discriminate|].
      apply IH in H; [exact H|].
      destruct Hin as (pre & Ht & Hp & Hc).
      exists (pre ++ [a]). cbn [rest pos caps].
      rewrite <- app_assoc, length_app. cbn [app List.length].
      rewrite Ht, Er. repeat split; [lia|exact Hc].
Qed.

(** [re.search] returns a match only at a position of the subject from
    which the pattern can be matched. *)
Theorem search_sound ic r t m :
  search ic r t = Some m ->
  exists st0 st1,
    inside t st0 /\ matches ic r st0 st1
    /\ m = MatchObj (pos st0) (pos st1) (caps st1).
Proof.
  unfold search. apply search_from_sound.
  exists []. cbn. auto.
Qed.

(** *** How far a match goes and what it captures *)

Section Shape.

Variable ic : bool.

Lemma advances_refl st : advances st st.
Proof. exists []. cbn. split; [reflexivity|lia]. Qed.

Lemma advances_trans st st1 st2 :
  advances st st1 -> advances st1 st2 -> advances st st2.
Proof.
  intros (w1 & R1 & P1) (w2 & R2 & P2). exists (w1 ++ w2).
  rewrite R1, R2, <- app_assoc, length_app. split; [reflexivity|lia].
Qed.

Lemma iter_advances (P : mstate -> mstate -> Prop) :
  (forall st st', P st st' -> advances st st') ->
  forall n st st', iter P n st st' -> advances st st'.
Proof.
  intros HP. induction n as [|n IH]; intros st st' H; cbn [iter] in H.
  - subst. apply advances_refl.
  - destruct H as (st1 & H1 & H2).
    exact (advances_trans (HP _ _ H1) (IH _ _ H2)).
Qed.

Lemma matches_advances r : forall st st', matches ic r st st' -> advances st st'.
Proof.
  induction r as [|cs|r1 IH1 r2 IH2|r1 IH1 r2 IH2|g lo hi r1 IH1|i r1 IH1| |];
    intros st st' H; cbn [matches] in H.
  - subst. apply advances_refl.
  - destruct H as (a & tl & Hr & _ & ->). exists [a]. cbn. split; [exact Hr|lia].
  - destruct H as (st1 & H1 & H2). eauto using advances_trans.
  - destruct H as [H|H]; auto.
  - destruct H as (n & _ & _ & H). exact (@iter_advances _ IH1 _ _ _ H).
  - destruct H as (st1 & H1 & ->). apply IH1 in H1.
    destruct H1 as (w & Hr & Hp). exists w. cbn. auto.
  - destruct H as [_ ->]. apply advances_refl.
  - destruct H as [_ ->]. apply advances_refl.
Qed.

Lemma advances_consumed st st' :
  advances st st' -> rest st = consumed st st' ++ rest st'.
Proof.
  intros (w & Hr & Hp). unfold consumed. rewrite Hp, Hr.
  replace (pos st + List.length w - pos st)%nat with (List.length w) by lia.
  now rewrite firstn_app_exact.
Qed.

Lemma iter_keeps_caps (P : mstate -> mstate -> Prop) :
  (forall st st', P st st' -> caps st' = caps st) ->
  forall n st st', iter P n st st' -> caps st' = caps st.
Proof.
  intros HP. induction n as [|n IH]; intros st st' H; cbn [iter] in H.
  - now subst.
  - destruct H as (st1 & H1 & H2). rewrite (IH _ _ H2). auto.
Qed.

(** A pattern without groups captures nothing. *)
Lemma no_groups_keeps_caps r :
  no_groups r = true ->
  forall st st', matches ic r st st' -> caps st' = caps st.
Proof.
  induction r as [|cs|r1 IH1 r2 IH2|r1 IH1 r2 IH2|g lo hi r1 IH1|i r1 IH1| |];
    cbn [no_groups]; intros Hg st st' H; cbn [matches] in H.
  - now subst.
  - destruct H as (a & tl & _ & _ & ->). reflexivity.
  - apply andb_true_iff in Hg. destruct Hg as [G1 G2].
    destruct H as (st1 & H1 & H2).
    rewrite (IH2 G2 _ _ H2). auto.
  - apply andb_true_iff in Hg. destruct Hg as [G1 G2].
    destruct H as [H|H]; auto.
  - destruct H as (n & _ & _ & H). exact (@iter_keeps_caps _ (IH1 Hg) _ _ _ H).
  - discriminate.
  - now destruct H as [_ ->].
  - now destruct H as [_ ->].
Qed.

(** What a group captures is the text its pattern consumed. *)
Lemma group_captures i r st st' :
  no_groups r = true ->
  matches ic (Grp i r) st st' ->
  exists st1,
    matches ic r st st1
    /\ caps st' = (i, consumed st st1) :: caps st
    /\ rest st' = rest st1 /\ pos st' = pos st1
    /\ rest st = consumed st st1 ++ rest st1.
Proof.
  intros Hg H. cbn [matches] in H. destruct H as (st1 & H1 & ->).
  exists st1. unfold set_cap, consumed. cbn [caps rest pos].
  rewrite (@no_groups_keeps_caps r Hg _ _ H1).
  repeat split; try assumption.
  exact (advances_consumed (@matches_advances r _ _ H1)).
Qed.

End Shape.

(** *** What a group holds after a match *)

Section Groups.

Variable ic : bool.
Variable i : nat.

Lemma lacks_keeps r :
  lacks i r = true ->
  forall st st', matches ic r st st' ->
                 lookup_cap i (caps st') = lookup_cap i (caps st).
Proof.
  induction r as [|cs|r1 IH1 r2 IH2|r1 IH1 r2 IH2|g lo hi r1 IH1|j r1 IH1| |];
    cbn [lacks]; intros Hg st st' H; cbn [matches] in H.
  - now subst.
  - destruct H as (a & tl & _ & _ & ->). reflexivity.
  - apply andb_true_iff in Hg. destruct Hg as [G1 G2].
    destruct H as (st1 & H1 & H2).
    now rewrite (IH2 G2 _ _ H2), (IH1 G1 _ _ H1).
  - apply andb_true_iff in Hg. destruct Hg as [G1 G2].
    destruct H as [H|H]; auto.
  - destruct H as (n & _ & _ & H). revert st st' H.
    induction n as [|n IHn]; intros st st' H; cbn [iter] in H.
    + now subst.
    + destruct H as (st1 & H1 & H2).
      now rewrite (IHn _ _ H2), (IH1 Hg _ _ H1).
  - apply andb_true_iff in Hg. destruct Hg as [G1 G2].
    destruct H as (st1 & H1 & ->). cbn [set_cap caps lookup_cap].
    apply negb_true_iff in G1. rewrite Nat.eqb_sym, G1. now apply IH1.
  - now destruct H as [_ ->].
  - now destruct H as [_ ->].
Qed.

(** After a match of a pattern with the group [i] on its spine, the group
    holds the text that its pattern consumed. *)
Lemma spine_capture r :
  forall g st st',
    spine_group i r = Some g ->
    matches ic r st st' ->
    exists sa sb,
      advances st sa /\ matches ic g sa sb /\ advances sb st'
      /\ lookup_cap i (caps st') = Some (consumed sa sb).
Proof.
  induction r as [|cs|r1 IH1 r2 IH2|r1 IH1 r2 IH2|gr lo hi r1 IH1|j r1 IH1| |];
    intros g st st' Hs H; cbn [spine_group] in Hs; try discriminate.
  - cbn [matches] in H. destruct H as (st1 & H1 & H2).
    destruct (lacks i r1) eqn:L1.
    + destruct (IH2 _ _ _ Hs H2) as (sa & sb & A1 & M & A2 & C).
      exists sa, sb. repeat split; try assumption.
      eapply advances_trans; [eapply matches_advances; exact H1|exact A1].
    + destruct (lacks i r2) eqn:L2; [|discriminate].
      destruct (IH1 _ _ _ Hs H1) as (sa & sb & A1 & M & A2 & C).
      exists sa, sb. repeat split; try assumption.
      * eapply advances_trans; [exact A2|eapply matches_advances; exact H2].
      * now rewrite (@lacks_keeps _ L2 _ _ H2).
  - destruct (j =? i) eqn:Ej; [|discriminate].
    destruct (lacks i r1) eqn:L1; [|discriminate].
    cbn [andb] in Hs. injection Hs as <-.
    cbn [matches] in H. destruct H as (st1 & H1 & ->).
    exists st, st1. repeat split.
    + apply advances_refl.
    + exact H1.
    + exists []. cbn [set_cap rest pos app List.length]. split; [reflexivity|lia].
    + cbn [set_cap caps lookup_cap]. rewrite Nat.eqb_sym, Ej. reflexivity.
Qed.

End Groups.

(** The group [i] of a match found by [re.search] is a piece of the subject
    that the group's pattern reads. *)
Theorem search_group ic r t m i g :
  search ic r t = Some m ->
  spine_group i r = Some g ->
  exists pre w post,
    t = pre ++ w ++ post /\ group m i = Some w /\ reads ic g w.
Proof.
  intros Hs Hg. apply search_sound in Hs.
  destruct Hs as (st0 & st1 & (pre0 & Ht & _ & _) & Hm & ->).
  destruct (@spine_capture ic i r g _ _ Hg Hm) as (sa & sb & (w0 & A1 & _) & M & A2 & C).
  assert (Hw : rest sa = consumed sa sb ++ rest sb)
    by (eapply advances_consumed, matches_advances; exact M).
  exists (pre0 ++ w0), (consumed sa sb), (rest sb). repeat split.
  - now rewrite Ht, A1, Hw, <- app_assoc.
  - exact C.
  - exists sa, sb. split; [exact M|exact Hw].
Qed.

Lemma search_group_str ic r t m i g :
  search ic r t = Some m ->
  spine_group i r = Some g ->
  exists pre post,
    t = pre ++ group_str m i ++ post /\ reads ic g (group_str m i).
Proof.
  intros Hs Hg.
  destruct (@search_group ic r t m i g Hs Hg) as (pre & w & post & Ht & Hw & Hr).
  exists pre, post. unfold group_str. rewrite Hw. auto.
Qed.

(** *** The items of a sequence *)

Lemma advances_set_cap i st st1 : advances st1 (set_cap i st st1).
Proof. exists []. cbn [set_cap rest pos app List.length]. split; [reflexivity|lia]. Qed.

Lemma on_spine_matches ic q r :
  forall st st',
    on_spine q r ->
    matches ic r st st' ->
    exists sa sb, advances st sa /\ matches ic q sa sb /\ advances sb st'.
Proof.
  assert (Here : forall r st st', r = q -> matches ic r st st' ->
            exists sa sb, advances st sa /\ matches ic q sa sb /\ advances sb st').
  { intros r0 st st' -> H. exists st, st'.
    split; [apply advances_refl|]. split; [exact H|apply advances_refl]. }
  induction r as [|cs|r1 IH1 r2 IH2|r1 IH1 r2 IH2|gr lo hi r1 IH1|j r1 IH1| |];
    intros st st' Hq H; cbn [on_spine] in Hq;
    (destruct Hq as [Hq|Hq]; [exact (Here _ _ _ Hq H)|]); try contradiction.
  - cbn [matches] in H. destruct H as (st1 & H1 & H2). destruct Hq as [Hq|Hq].
    + destruct (IH1 _ _ Hq H1) as (sa & sb & A1 & M & A2).
      exists sa, sb. split; [exact A1|]. split; [exact M|].
      eapply advances_trans; [exact A2|eapply matches_advances; exact H2].
    + destruct (IH2 _ _ Hq H2) as (sa & sb & A1 & M & A2).
      exists sa, sb. split; [|split; [exact M|exact A2]].
      eapply advances_trans; [eapply matches_advances; exact H1|exact A1].
  - cbn [matches] in H. destruct H as (st1 & H1 & ->).
    destruct (IH1 _ _ Hq H1) as (sa & sb & A1 & M & A2).
    exists sa, sb. split; [exact A1|]. split; [exact M|].
    eapply advances_trans; [exact A2|apply advances_set_cap].
Qed.

(** An item of the pattern that [re.search] has found matches a piece of
    the subject. *)
Lemma search_item ic r t m q :
  search ic r t = Some m ->
  on_spine q r ->
  exists pre sa sb post,
    matches ic q sa sb /\ rest sb = post /\ t = pre ++ rest sa.
Proof.
  intros Hs Hq. apply search_sound in Hs.
  destruct Hs as (st0 & st1 & (pre0 & Ht & _ & _) & Hm & _).
  destruct (@on_spine_matches ic q r _ _ Hq Hm) as (sa & sb & (w0 & A1 & _) & M & _).
  exists (pre0 ++ w0), sa, sb, (rest sb). split; [exact M|]. split; [reflexivity|].
  now rewrite Ht, A1, <- app_assoc.
Qed.

End ReSound.

(** ** The shape of what the program's patterns match *)

Module PatternFacts.

Import Re ReSem ReFacts ReSound TextFacts.

(** *** Runs of one-character matchers and literals *)

Lemma chr_run ic cs :
  forall n st st',
    iter (matches ic (Chr cs)) n st st' ->
    exists w,
      rest st = w ++ rest st' /\ List.length w = n
      /\ forallb (cset_mem ic cs) w = true /\ caps st' = caps st.
Proof.
  induction n as [|n IH]; intros st st' H; cbn [iter] in H.
  - subst. exists []. auto.
  - destruct H as (st1 & H1 & H2). cbn [matches] in H1.
    destruct H1 as (a & tl & Hr & Hc & ->).
    destruct (IH _ _ H2) as (w & Hw & Hl & Hf & Hcaps).
    cbn [rest caps] in Hw, Hcaps.
    exists (a :: w). cbn [app List.length forallb].
    rewrite Hr, Hw, Hl, Hc, Hf. auto.
Qed.

Lemma rep_chr_run ic g lo hi cs st st' :
  matches ic (Rep g lo hi (Chr cs)) st st' ->
  exists w,
    rest st = w ++ rest st' /\ (lo <= List.length w)%nat
    /\ within hi (List.length w)
    /\ forallb (cset_mem ic cs) w = true /\ caps st' = caps st.
Proof.
  cbn [matches]. intros (n & Hlo & Hhi & H).
  destruct (@chr_run ic cs _ _ _ H) as (w & Hw & Hl & Hf & Hc).
  exists w. subst n. auto.
Qed.

Lemma lit_str_matches ic x :
  forall st st',
    matches ic (lit_str x) st st' ->
    exists w,
      rest st = w ++ rest st' /\ same_text ic x w /\ caps st' = caps st.
Proof.
  induction x as [|c x IH]; intros st st' H.
  - cbn in H. subst. exists []. unfold same_text. destruct ic; auto.
  - change (lit_str (c :: x)) with (Seq (Chr (Lit c)) (lit_str x)) in H.
    cbn [matches] in H. destruct H as (st1 & (a & tl & Hr & Hc & ->) & H2).
    destruct (IH _ _ H2) as (w & Hw & Hs & Hcaps).
    cbn [rest caps] in Hw, Hcaps.
    exists (a :: w). rewrite Hr, Hw. repeat split; [|exact Hcaps].
    unfold same_text in *. cbn [cset_mem] in Hc. destruct ic.
    + apply Ascii.eqb_eq in Hc. unfold Text.lower in *. cbn [map].
      now rewrite Hs, Hc.
    + apply Ascii.eqb_eq in Hc. now subst.
Qed.

Lemma lit_matches ic x st st' :
  matches ic (lit x) st st' ->
  exists w, rest st = w ++ rest st' /\ same_text ic (s x) w /\ caps st' = caps st.
Proof. apply (lit_str_matches ic (s x)). Qed.

Lemma alts_matches ic l :
  l <> [] ->
  forall st st', matches ic (alts l) st st' ->
                 exists r, In r l /\ matches ic r st st'.
Proof.
  induction l as [|r l IH]; intros Hne st st' H; [congruence|].
  destruct l as [|r' l].
  - exists r. split; [now left|exact H].
  - change (alts (r :: r' :: l)) with (Alt r (alts (r' :: l))) in H.
    cbn [matches] in H. destruct H as [H|H].
    + exists r. split; [now left|exact H].
    + destruct (IH ltac:(discriminate) _ _ H) as (r0 & Hin & H0).
      exists r0. split; [now right|exact H0].
Qed.

Lemma words_matches ic l st st' :
  l <> [] ->
  matches ic (words l) st st' ->
  exists x w, In x l /\ rest st = w ++ rest st' /\ same_text ic (s x) w
              /\ caps st' = caps st.
Proof.
  intros Hne H. unfold words in H.
  apply alts_matches in H; [|destruct l; [congruence|discriminate]].
  destruct H as (r & Hin & H). apply in_map_iff in Hin.
  destruct Hin as (x & <- & Hx). apply lit_matches in H.
  destruct H as (w & Hw & Hs & Hc). eauto 8.
Qed.

Lemma opt_matches ic r st st' :
  matches ic (opt r) st st' -> st' = st \/ matches ic r st st'.
Proof.
  unfold opt. cbn [matches within]. intros (n & _ & Hn & H).
  destruct n as [|[|n]]; cbn [iter] in H.
  - now left.
  - destruct H as (st1 & H1 & ->). now right.
  - lia.
Qed.

(** *** Literals of a pattern that was found *)

Lemma same_text_lower ic x w : same_text ic x w -> Text.lower w = Text.lower x.
Proof. unfold same_text. destruct ic; [auto|now intros ->]. Qed.

Lemma search_lit ic r t m x :
  search ic r t = Some m ->
  on_spine (lit x) r ->
  Text.contains (Text.lower (s x)) (Text.lower t) = true.
Proof.
  intros Hs Hq.
  destruct (@search_item ic r t m _ Hs Hq) as (pre & sa & sb & post & M & _ & Ht).
  apply lit_matches in M. destruct M as (w & Hw & Hx & _).
  rewrite Ht, Hw. apply contains_lower_piece. exact (@same_text_lower ic _ _ Hx).
Qed.

Lemma search_words ic r t m l :
  l <> [] ->
  search ic r t = Some m ->
  on_spine (words l) r ->
  exists x, In x l /\ Text.contains (Text.lower (s x)) (Text.lower t) = true.
Proof.
  intros Hl Hs Hq.
  destruct (@search_item ic r t m _ Hs Hq) as (pre & sa & sb & post & M & _ & Ht).
  apply words_matches in M; [|exact Hl].
  destruct M as (x & w & Hin & Hw & Hx & _).
  exists x. split; [exact Hin|].
  rewrite Ht, Hw. apply contains_lower_piece. exact (@same_text_lower ic _ _ Hx).
Qed.

End PatternFacts.

(** ** The texts that the program's patterns capture *)

Module CaptureFacts.

Import Re ReSem ReFacts ReSound PatternFacts TextFacts.

(** *** Literal characters that are not letters *)

Lemma upper_lowers a :
  Text.is_upper a = true -> Text.is_lower (Text.lower_char a) = true.
Proof. destruct a as [[] [] [] [] [] [] [] []]; vm_compute; congruence. Qed.

Lemma lower_char_fixed a :
  Text.is_lower (Text.lower_char a) = false -> Text.lower_char a = a.
Proof.
  intros H. destruct (Text.is_upper a) eqn:E.
  - apply upper_lowers in E. congruence.
  - unfold Text.lower_char. now rewrite E.
Qed.


(** A literal that is not a letter matches itself only, with or without
    IGNORECASE. *)
Lemma lit_exact ic c a :
  Text.is_lower (Text.lower_char c) = false ->
  cset_mem ic (Lit c) a = true -> a = c.
Proof.
  intros Hc H. cbn [cset_mem] in H. destruct ic.
  - apply eqc_eq in H.
    assert (Ha : Text.is_lower (Text.lower_char a) = false) by congruence.
    rewrite <- (lower_char_fixed _ Ha), <- H. now apply lower_char_fixed.
  - apply eqc_eq in H. now symmetry.
Qed.

Lemma one_of_exact ic l a :
  forallb (fun c => negb (Text.is_lower (Text.lower_char c))) l = true ->
  cset_mem ic (OneOf l) a = true -> In a l.
Proof.
  intros Hl H. cbn [cset_mem] in H. apply existsb_exists in H.
  destruct H as (c & Hin & Hc).
  rewrite forallb_forall in Hl. specialize (Hl c Hin).
  apply negb_true_iff in Hl.
  rewrite (lit_exact ic c a Hl Hc). exact Hin.
Qed.

(** *** Runs of digits *)

Lemma digits_run ic g lo hi st st' :
  matches ic (Rep g lo hi d) st st' ->
  exists w,
    rest st = w ++ rest st' /\ (lo <= List.length w)%nat
    /\ within hi (List.length w) /\ Num.all_digits w = true.
Proof.
  intros H. apply rep_chr_run in H.
  destruct H as (w & Hw & Hlo & Hhi & Hf & _).
  exists w. repeat split; assumption.
Qed.


Lemma all_digits_app a b :
  Num.all_digits (a ++ b) = Num.all_digits a && Num.all_digits b.
Proof.
  induction a as [|x a IH]; [reflexivity|].
  cbn [app Num.all_digits]. now rewrite IH, andb_assoc.
Qed.

Lemma digit_not_point a : Text.is_digit a = true -> Text.eqc a "." = false.
Proof.
  intros H. destruct (Text.eqc a ".") eqn:E; [|reflexivity].
  apply eqc_eq in E. subst a. discriminate H.
Qed.

Lemma split_point_at ip t :
  Num.all_digits ip = true ->
  Num.split_point (ip ++ "."%char :: t) = (ip, Some t).
Proof.
  induction ip as [|a ip IH]; intros H; [reflexivity|].
  cbn [Num.all_digits] in H. apply andb_true_iff in H. destruct H as [Ha Hd].
  cbn [app Num.split_point]. rewrite (@digit_not_point a Ha), (IH Hd).
  reflexivity.
Qed.

(** *** The decimal of the amount patterns *)

Lemma decimal_matches ic st st' :
  matches ic decimal st st' ->
  exists w, rest st = w ++ rest st' /\ is_decimal w = true.
Proof.
  unfold decimal. cbn [matches]. intros (st1 & H1 & H2).
  apply digits_run in H1. destruct H1 as (ip & Hip & Hlen & _ & Hd).
  apply opt_matches in H2. destruct H2 as [->|H2].
  - exists ip. split; [exact Hip|].
    unfold is_decimal. rewrite (all_digits_no_point ip Hd), Hd.
    destruct ip; [cbn in Hlen; lia|reflexivity].
  - cbn [matches] in H2. destruct H2 as (st2 & Hp & H3).
    unfold ch in Hp. apply lit_matches in Hp.
    destruct Hp as (wp & Hwp & Hs & _).
    apply digits_run in H3. destruct H3 as (fp & Hfp & Hlo & Hhi & Hfd).
    cbn [within] in Hhi.
    assert (Ewp : wp = ["."%char]).
    { unfold same_text in Hs. destruct ic.
      - destruct wp as [|x [|y wp]]; try discriminate Hs.
        cbn in Hs. injection Hs as Hs.
        assert (Hx : cset_mem true (Lit ".") x = true).
        { cbn [cset_mem]. rewrite Hs. apply eqc_refl. }
        now rewrite (lit_exact true "." x eq_refl Hx).
      - exact Hs. }
    subst wp. exists (ip ++ "."%char :: fp). split.
    + rewrite Hip, Hwp, Hfp. now rewrite <- app_assoc.
    + unfold is_decimal. rewrite (@split_point_at ip fp Hd), Hd, Hfd.
      replace (List.length fp) with 2%nat by lia.
      destruct ip; [cbn in Hlen; lia|reflexivity].
Qed.

Lemma reads_decimal ic w : reads ic decimal w -> is_decimal w = true.
Proof.
  intros (st & st' & H & Hw). apply decimal_matches in H.
  destruct H as (w' & Hw' & Hd). rewrite Hw in Hw'.
  apply app_inv_tail in Hw'. now subst.
Qed.

Lemma float_of_decimal w :
  is_decimal w = true -> Num.float_of_str w = Ok (decimal_value w).
Proof.
  unfold is_decimal, decimal_value, Num.float_of_str.
  destruct (Num.split_point w) as [ip [fp|]]; intros H.
  - repeat (apply andb_true_iff in H; destruct H as [H ?]).
    rewrite H.
    match goal with E : Num.all_digits fp = true |- _ => rewrite E end.
    match goal with E : (_ =? 2)%nat = true |- _ => apply Nat.eqb_eq in E; rewrite E end.
    rewrite Nat.add_comm. reflexivity.
  - now rewrite H.
Qed.

(** *** [int] on what the date patterns capture *)

Lemma digit_not_space a : Text.is_digit a = true -> Text.is_space a = false.
Proof. destruct a as [[] [] [] [] [] [] [] []]; vm_compute; congruence. Qed.

Lemma digit_is_not a c :
  Text.is_digit a = true -> Text.is_digit c = false -> Text.eqc a c = false.
Proof.
  intros Ha Hc. destruct (Text.eqc a c) eqn:E; [|reflexivity].
  apply eqc_eq in E. congruence.
Qed.

Lemma digits_last w :
  w <> [] -> Num.all_digits w = true ->
  exists l b, w = l ++ [b] /\ Text.is_digit b = true.
Proof.
  intros Hne Hd. destruct (exists_last Hne) as (l & b & ->).
  exists l, b. split; [reflexivity|].
  rewrite all_digits_app in Hd. apply andb_true_iff in Hd.
  destruct Hd as [_ Hb]. cbn [Num.all_digits] in Hb.
  now rewrite andb_true_r in Hb.
Qed.

(** Nothing is stripped from a text that begins and ends with a digit. *)
Lemma strip_between_digits a l b :
  Text.is_digit a = true -> Text.is_digit b = true ->
  Text.strip (a :: l ++ [b]) = a :: l ++ [b].
Proof.
  intros Ha Hb. apply strip_by_keep; now apply digit_not_space.
Qed.





(** [int] refuses digits followed by a separator, when the text ends with
    a digit. *)
Lemma int_of_separated ds c tl l b :
  ds <> [] -> Num.all_digits ds = true ->
  Text.is_digit c = false -> Text.eqc c "_" = false ->
  ds ++ c :: tl = l ++ [b] -> Text.is_digit b = true ->
  Num.int_of_str (ds ++ c :: tl) = Raise ValueError.
Proof.
  intros Hne Hd Hc Hu El Hb. unfold Num.int_of_str.
  destruct ds as [|a ds]; [congruence|].
  pose proof Hd as Hd'. cbn [Num.all_digits] in Hd'.
  apply andb_true_iff in Hd'. destruct Hd' as [Ha Hds].
  assert (Es : Text.strip ((a :: ds) ++ c :: tl) = (a :: ds) ++ c :: tl).
  { rewrite El. destruct l as [|x l].
    - destruct ds; discriminate El.
    - cbn [app] in El |- *. injection El as <- El.
      now apply strip_between_digits. }
  rewrite Es. cbn [app].
  rewrite (@digit_is_not a "-" Ha eq_refl), (@digit_is_not a "+" Ha eq_refl).
  assert (Hv : forall ds acc b0,
             Num.all_digits ds = true ->
             Num.digits_val acc b0 (ds ++ c :: tl) = None).
  { clear - Hc Hu. induction ds as [|x ds IH]; intros acc b0 Hd.
    - cbn [app Num.digits_val]. rewrite Hc, Hu. reflexivity.
    - cbn [Num.all_digits] in Hd. apply andb_true_iff in Hd.
      destruct Hd as [Hx Hd]. cbn [app Num.digits_val]. rewrite Hx.
      now apply IH. }
  change (a :: ds ++ c :: tl) with ((a :: ds) ++ c :: tl).
  now rewrite Hv.
Qed.

(** [re.match(r'\d+', t)] succeeds on a text that begins with a digit. *)
Lemma rep_loop_stops body lo hi k fuel n st :
  (lo <= n)%nat -> (forall st1, k st1 <> None) ->
  rep_loop body true lo hi k fuel n st <> None.
Proof.
  intros Hlo Hk. rewrite rep_loop_eq. cbv zeta.
  apply Nat.leb_le in Hlo. rewrite Hlo.
  match goal with |- match ?x with _ => _ end <> _ => destruct x end;
    [discriminate|apply Hk].
Qed.

Lemma digits_match_at_digit a tl :
  Text.is_digit a = true -> match_ false (plus d) (a :: tl) <> None.
Proof.
  intros Ha. unfold match_, match_at, start, plus, d.
  rewrite rmatch_Rep, rep_loop_eq. cbv zeta. cbn [rest List.length Nat.add under].
  rewrite chr_step by exact Ha.
  change (0 <? 1)%nat with true. cbn [orb].
  match goal with
  | |- context [rep_loop ?b ?g ?lo ?hi ?k ?f ?n ?st] =>
      assert (Hx : rep_loop b g lo hi k f n st <> None)
        by (apply rep_loop_stops; [lia|discriminate]);
      destruct (rep_loop b g lo hi k f n st); [discriminate|congruence]
  end.
Qed.



(** *** The numeric date forms *)

Lemma separator_matches ic st st' :
  matches ic (Chr (OneOf (s "-/"))) st st' ->
  exists c, (c = "-"%char \/ c = "/"%char) /\ rest st = c :: rest st'.
Proof.
  cbn [matches]. intros (a & tl & Hr & Hc & ->).
  apply one_of_exact in Hc; [|reflexivity].
  exists a. split; [|exact Hr].
  destruct Hc as [<-|[<-|[]]]; auto.
Qed.

Lemma ch_matches ic c st st' :
  Text.is_lower (Text.lower_char c) = false ->
  matches ic (Seq (Chr (Lit c)) Eps) st st' ->
  rest st = c :: rest st'.
Proof.
  intros Hc. cbn [matches]. intros (st1 & (a & tl & Hr & Ha & ->) & ->).
  apply lit_exact in Ha; [|exact Hc]. now subst a.
Qed.

Lemma separated_intro ds c tl fp :
  ds <> [] -> Num.all_digits ds = true ->
  (c = "-"%char \/ c = "/"%char) ->
  fp <> [] -> Num.all_digits fp = true ->
  separated (ds ++ c :: tl ++ fp).
Proof.
  intros Hne Hd Hc Hfne Hfd.
  destruct (digits_last Hfne Hfd) as (l & b & -> & Hb).
  exists ds, c, (tl ++ l ++ [b]), (ds ++ c :: tl ++ l), b.
  repeat split; try assumption.
  now rewrite <- !app_assoc, <- app_comm_cons, <- !app_assoc.
Qed.

Lemma nonempty_of_length (w : str) n : (S n <= List.length w)%nat -> w <> [].
Proof. destruct w; cbn; [lia|discriminate]. Qed.

Lemma reads_numeric_date ic w : reads ic numeric_date w -> separated w.
Proof.
  intros (st & st' & H & Hw). unfold numeric_date in H.
  cbn [seqs] in H.
  destruct H as (s1 & H1 & s2 & H2 & s3 & H3 & H4).
  apply digits_run in H1. destruct H1 as (w1 & R1 & L1 & _ & D1).
  apply separator_matches in H2. destruct H2 as (c & Hc & R2).
  apply digits_run in H3. destruct H3 as (w3 & R3 & L3 & _ & D3).
  apply opt_matches in H4. destruct H4 as [->|(s4 & H4 & H5)].
  - assert (E : w = w1 ++ c :: [] ++ w3).
    { apply (app_inv_tail (rest s3)). rewrite <- Hw, R1, R2, R3.
      now rewrite <- !app_assoc, <- app_comm_cons. }
    rewrite E. apply separated_intro; try assumption;
      eapply nonempty_of_length; eassumption.
  - apply separator_matches in H4. destruct H4 as (c' & Hc' & R4).
    apply digits_run in H5. destruct H5 as (w5 & R5 & L5 & _ & D5).
    assert (E : w = w1 ++ c :: (w3 ++ [c']) ++ w5).
    { apply (app_inv_tail (rest st')). rewrite <- Hw, R1, R2, R3, R4, R5.
      now rewrite <- !app_assoc, <- !app_comm_cons, <- !app_assoc. }
    rewrite E. apply separated_intro; try assumption.
    + eapply nonempty_of_length; eassumption.
    + apply (@nonempty_of_length w5 1). exact L5.
Qed.

Lemma reads_iso_date ic w :
  reads ic (seqs [times 4 4 d; ch "-"; times 1 2 d; ch "-"; times 1 2 d]) w ->
  separated w.
Proof.
  intros (st & st' & H & Hw). cbn [seqs] in H.
  destruct H as (s1 & H1 & s2 & H2 & s3 & H3 & s4 & H4 & H5).
  apply digits_run in H1. destruct H1 as (w1 & R1 & L1 & _ & D1).
  apply (@ch_matches ic "-" s1 s2 eq_refl) in H2.
  apply digits_run in H3. destruct H3 as (w3 & R3 & L3 & _ & D3).
  apply (@ch_matches ic "-" s3 s4 eq_refl) in H4.
  apply digits_run in H5. destruct H5 as (w5 & R5 & L5 & _ & D5).
  assert (E : w = w1 ++ "-"%char :: (w3 ++ ["-"%char]) ++ w5).
  { apply (app_inv_tail (rest st')). rewrite <- Hw, R1, H2, R3, H4, R5.
    now rewrite <- !app_assoc, <- !app_comm_cons, <- !app_assoc. }
  rewrite E. apply separated_intro; auto.
  - apply (@nonempty_of_length w1 3). exact L1.
  - eapply nonempty_of_length; eassumption.
Qed.

(** Such a text passes the test [re.match(r'\d+', date_str)], and [int]
    refuses it. *)
Lemma separated_raises w :
  separated w ->
  match_ false (plus d) w <> None /\ Num.int_of_str w = Raise ValueError.
Proof.
  intros (ds & c & tl & l & b & E & Hne & Hd & Hc & El & Hb). split.
  - rewrite E. destruct ds as [|a ds]; [congruence|].
    cbn [Num.all_digits] in Hd. apply andb_true_iff in Hd.
    apply digits_match_at_digit. tauto.
  - rewrite E. rewrite E in El.
    apply (@int_of_separated ds c tl l b); try assumption;
      destruct Hc as [->| ->]; reflexivity.
Qed.

(** *** The groups of the program's patterns *)

Lemma date_patterns_forms :
  date_patterns = [date_form 0; date_form 1; date_form 2; date_form 3; date_form 4].
Proof. reflexivity. Qed.

Lemma amount_groups p :
  In p amount_patterns -> spine_group 1 p = Some decimal.
Proof.
  unfold amount_patterns. cbn [In].
  intros [<-|[<-|[<-|[<-|[]]]]]; reflexivity.
Qed.

(** *** The category names *)




(** *** Substitution and the characters of a text *)

Section Characters.

Variable P : ascii -> Prop.

Lemma drop_Forall n : forall st, Forall P (rest st) -> Forall P (rest (drop n st)).
Proof.
  induction n as [|n IH]; intros st H; [exact H|].
  cbn [drop]. unfold step. destruct (rest st) as [|a tl] eqn:E.
  - now rewrite E.
  - apply IH. cbn [rest]. now inversion H.
Qed.

Lemma sub_from_Forall ic r repl fuel :
  Forall P repl ->
  forall st, Forall P (rest st) -> Forall P (sub_from ic r repl fuel st).
Proof.
  intros Hrepl. induction fuel as [|fuel IH]; intros st H; [exact H|].
  cbn [sub_from].
  assert (Hcopy : Forall P match rest st with
                           | a :: _ => a :: sub_from ic r repl fuel (drop 1 st)
                           | [] => []
                           end).
  { destruct (rest st) as [|a tl] eqn:E; [constructor|].
    constructor; [now inversion H|].
    apply IH, drop_Forall. now rewrite E. }
  destruct (match_at ic r st) as [m|]; [|exact Hcopy].
  destruct (m_start m <? m_end m)%nat; apply Forall_app; split;
    try assumption.
  apply IH, drop_Forall, H.
Qed.

Lemma sub_Forall ic r repl t :
  Forall P repl -> Forall P t -> Forall P (sub ic r repl t).
Proof. intros Hr Ht. unfold sub. now apply sub_from_Forall. Qed.

End Characters.

Lemma lower_Forall t : Forall (fun c => Text.lower_char c = c) (Text.lower t).
Proof.
  induction t as [|a t IH]; [constructor|].
  constructor; [apply lower_char_idem|exact IH].
Qed.

Lemma Forall_lower t :
  Forall (fun c => Text.lower_char c = c) t -> Text.lower t = t.
Proof.
  induction 1 as [|a t Ha _ IH]; [reflexivity|].
  unfold Text.lower in *. cbn [map]. now rewrite Ha, IH.
Qed.

(** *** The titles of the delete and mark commands *)

(** The clean-up of a captured title: stripped, the stray words taken out,
    stripped again. *)
Lemma cleaned_title_shape t g pre post :
  t = pre ++ g ++ post ->
  let title := Text.strip (sub false stray_words [] (Text.strip g)) in
  Text.strip title = title
  /\ (Text.lower t = t -> Text.lower title = title).
Proof.
  intros Ht title. split; [apply strip_by_idem|].
  intros Hl. apply Forall_lower.
  apply strip_by_Forall, sub_Forall; [constructor|].
  apply strip_by_Forall.
  pose proof (lower_Forall t) as H. rewrite Hl, Ht in H.
  apply Forall_app in H. destruct H as [_ H].
  apply Forall_app in H. tauto.
Qed.

Lemma delete_groups p :
  In p delete_patterns -> exists g, spine_group 1 p = Some g.
Proof.
  unfold delete_patterns. cbn [In].
  intros [<-|[<-|[<-|[<-|[]]]]]; eexists; reflexivity.
Qed.

Lemma create_groups p :
  In p create_patterns -> exists g, spine_group 1 p = Some g.
Proof.
  unfold create_patterns. cbn [In].
  intros [<-|[<-|[<-|[<-|[]]]]]; eexists; reflexivity.
Qed.

(** *** The recurrence keywords *)







Lemma existsb_eq_str_In w l : existsb (Text.eq_str w) l = true -> In w l.
Proof.
  intros H. apply existsb_exists in H. destruct H as (k & Hk & He).
  apply eq_str_eq in He. now subst.
Qed.

(** *** Dates with a month name *)















End CaptureFacts.

(** ** The branches of the classifier *)

Module ClassifierFacts.

Import Clock Stamp ClockFacts ResolverFacts ExtractFacts.
Import ReSem ReSound TextFacts PatternFacts CaptureFacts.

Section Classifier.

Variable now : datetime.
Variable calendar_parse : str -> result datetime.

Lemma classify_cases user_input r :
  classify now calendar_parse user_input = Ok r ->
  delete_request delete_patterns (Text.lower user_input) = Some r
  \/ r = ListReminders
  \/ mark_request (Text.lower user_input) = Some r
  \/ create_request now calendar_parse create_patterns user_input = Ok r.
Proof.
  unfold classify. cbv zeta.
  destruct (delete_request _ _) as [r0|].
  - intros E. apply Ok_inj in E. subst. now left.
  - destruct (existsb _ list_commands).
    + intros E. apply Ok_inj in E. subst. right. now left.
    + destruct (mark_request _) as [r0|].
      * intros E. apply Ok_inj in E. subst. right. right. now left.
      * intros E. right. right. now right.
Qed.

Lemma delete_request_shape patterns t r :
  (forall p, In p patterns -> exists g, spine_group 1 p = Some g) ->
  delete_request patterns t = Some r ->
  exists title,
    r = Delete title /\ title <> [] /\ Text.strip title = title
    /\ (Text.lower t = t -> Text.lower title = title).
Proof.
  induction patterns as [|p ps IH]; intros Hg H; cbn [delete_request] in H;
    [discriminate|].
  destruct (search false p t) as [m|] eqn:Es.
  - destruct (Hg p (or_introl eq_refl)) as [g Hp].
    destruct (@search_group_str _ _ _ _ _ _ Es Hp) as (pre & post & Ht & _).
    destruct (@cleaned_title_shape t (group_str m 1) pre post Ht) as [H1 H2].
    destruct (Text.strip (sub false stray_words [] (Text.strip (group_str m 1))))
      as [|a l] eqn:E; [discriminate|].
    injection H as <-. exists (a :: l).
    split; [reflexivity|]. split; [discriminate|]. split; assumption.
  - apply IH; [|exact H]. intros q Hq. apply Hg. now right.
Qed.

Lemma mark_request_shape t r :
  mark_request t = Some r ->
  exists title,
    r = MarkDone title /\ title <> [] /\ Text.strip title = title
    /\ (Text.lower t = t -> Text.lower title = title).
Proof.
  unfold mark_request. destruct (existsb _ done_commands); [|discriminate].
  destruct (search false mark_pattern t) as [m|] eqn:Es; [|discriminate].
  destruct (@search_group_str _ _ _ _ 1%nat _ Es eq_refl) as (pre & post & Ht & _).
  destruct (@cleaned_title_shape t (group_str m 1) pre post Ht) as [H1 H2].
  destruct (Text.strip (sub false stray_words [] (Text.strip (group_str m 1))))
    as [|a l] eqn:E; [discriminate|].
  intros H. injection H as <-. exists (a :: l).
  split; [reflexivity|]. split; [discriminate|]. split; assumption.
Qed.

Lemma create_request_shape patterns user_input r :
  create_request now calendar_parse patterns user_input = Ok r ->
  r = NoAction
  \/ exists p m i,
       In p patterns /\ search true p user_input = Some m
       /\ extract_reminder_info now calendar_parse (group_str m 1) = Ok i
       /\ r = Create i.
Proof.
  induction patterns as [|p ps IH]; cbn [create_request]; intros H.
  - apply Ok_inj in H. now left.
  - destruct (search true p user_input) as [m|] eqn:Es.
    + destruct (extract_reminder_info _ _ _) as [i|] eqn:Ei; cbn [bind] in H;
        [|discriminate].
      apply Ok_inj in H. right. exists p, m, i.
      split; [now left|]. auto.
    + destruct (IH H) as [->|(q & m & i & Hq & Hm)]; [now left|].
      right. exists q, m, i. split; [now right|exact Hm].
Qed.

Lemma delete_request_none patterns t :
  (forall p, In p patterns -> search false p t = None) ->
  delete_request patterns t = None.
Proof.
  induction patterns as [|p ps IH]; intros H; [reflexivity|].
  cbn [delete_request]. rewrite (H p (or_introl eq_refl)).
  apply IH. intros q Hq. apply H. now right.
Qed.





(** *** Utterances without a command word *)

Lemma on_spine_here q : on_spine q q.
Proof. destruct q; now left. Qed.

Lemma delete_patterns_word p :
  In p delete_patterns ->
  on_spine (words ["delete"; "remove"; "cancel"]%string) p
  \/ on_spine (lit "remove") p \/ on_spine (lit "cancel") p.
Proof.
  unfold delete_patterns. cbn [In].
  intros [<-|[<-|[<-|[<-|[]]]]]; cbn [on_spine seqs]; auto 20 using on_spine_here.
Qed.


Lemma no_verb_no_delete user_input :
  existsb (fun k => Text.contains k (Text.lower user_input)) delete_verbs = false ->
  delete_request delete_patterns (Text.lower user_input) = None.
Proof.
  unfold delete_verbs. cbn [map existsb]. intros H.
  apply orb_false_iff in H. destruct H as [Kdelete H].
  apply orb_false_iff in H. destruct H as [Kremove H].
  apply orb_false_iff in H. destruct H as [Kcancel _].
  apply delete_request_none. intros p Hp.
  destruct (search false p (Text.lower user_input)) as [m|] eqn:Es;
    [exfalso|reflexivity].
  destruct (@delete_patterns_word _ Hp) as [Hw|[Hw|Hw]].
  - destruct (@search_words _ _ _ _ ["delete"; "remove"; "cancel"]%string
                ltac:(discriminate) Es Hw) as (x & Hin & Hc).
    rewrite lower_idem in Hc. cbn [In] in Hin.
    destruct Hin as [<-|[<-|[<-|[]]]].
    + exact (eq_true_false_abs _ Hc Kdelete).
    + exact (eq_true_false_abs _ Hc Kremove).
    + exact (eq_true_false_abs _ Hc Kcancel).
  - pose proof (@search_lit _ _ _ _ _ Es Hw) as Hc. rewrite lower_idem in Hc.
    exact (eq_true_false_abs _ Hc Kremove).
  - pose proof (@search_lit _ _ _ _ _ Es Hw) as Hc. rewrite lower_idem in Hc.
    exact (eq_true_false_abs _ Hc Kcancel).
Qed.


(** *** What makes the extractor raise *)









End Classifier.

End ClassifierFacts.

(** ** The store commands *)

Module StoreFacts.

Import TextFacts.




Lemma filter_weaker (A : Type) (f g : A -> bool) l :
  (forall x, g x = true -> f x = true) ->
  filter f l = [] -> filter g l = [].
Proof.
  intros Hfg. induction l as [|a l IH]; [reflexivity|].
  cbn [filter]. destruct (f a) eqn:Ef; [discriminate|].
  destruct (g a) eqn:Eg; [|exact IH].
  apply Hfg in Eg. congruence.
Qed.

Lemma filter_nil_existsb (A : Type) (f : A -> bool) l :
  existsb f l = negb (match filter f l with [] => true | _ => false end).
Proof.
  induction l as [|a l IH]; [reflexivity|].
  cbn [existsb filter]. destruct (f a); [reflexivity|exact IH].
Qed.

(** A row with the title itself is a row whose title holds it. *)
Lemma eq_title_ilike title r :
  Store.eq_title title r = true -> Store.ilike_title title r = true.
Proof.
  unfold Store.eq_title, Store.ilike_title. intros H.
  apply eq_str_eq in H. rewrite <- H. apply contains_refl.
Qed.


(** What it does with an identifier. *)
Lemma delete_by_id db a reminder_id title :
  let hits := Store.select (Store.eq_id (a :: reminder_id)) db in
  let r := delete_reminder db (Some (a :: reminder_id)) title in
  success (fst r) = negb (match hits with [] => true | _ => false end)
  /\ deleted_count (fst r) = Some (List.length hits)
  /\ snd r = filter (fun row => negb (Store.eq_id (a :: reminder_id) row)) db.
Proof.
  intros hits r. subst r. unfold delete_reminder, Store.delete.
  unfold Store.select in hits. fold hits.
  destruct hits; repeat split.
Qed.

(** *** The words of a title *)





End StoreFacts.

(** ** Marking, listing and creating *)

Module LedgerFacts.

Import Ledger TextFacts StoreFacts.

Lemma key_done r : key (done r) = key r.
Proof. reflexivity. Qed.

Lemma done_done r : done (done r) = done r.
Proof. reflexivity. Qed.

Lemma is_done_done r : is_done (done r) = true.
Proof. reflexivity. Qed.

Section Update.

Variable f : Store.row -> bool.

Lemma key_mark r : key (mark f r) = key r.
Proof. unfold mark. destruct (f (key r)); reflexivity. Qed.

Lemma mark_mark r : mark f (mark f r) = mark f r.
Proof.
  unfold mark. destruct (f (key r)) eqn:E; [|now rewrite E].
  now rewrite key_done, E.
Qed.

Lemma filter_key_map (g : Store.row -> bool) (h : reminder -> reminder) db :
  (forall r, key (h r) = key r) ->
  filter (fun r => g (key r)) (map h db) = map h (filter (fun r => g (key r)) db).
Proof.
  intros Hk. induction db as [|x db IH]; [reflexivity|].
  cbn [map filter]. rewrite Hk. destruct (g (key x)); cbn [map]; now rewrite IH.
Qed.

Lemma map_mark_none db :
  filter (fun r => f (key r)) db = [] -> map (mark f) db = db.
Proof.
  induction db as [|x db IH]; [reflexivity|].
  cbn [filter map]. unfold mark at 1. destruct (f (key x)); [discriminate|].
  intros H. now rewrite (IH H).
Qed.

End Update.

(** What [mark_reminder_done] does with a title. *)
Lemma mark_by_title db a title :
  let f := Store.ilike_title (a :: title) in
  let r := mark_reminder_done db None (Some (a :: title)) in
  snd r = map (mark f) db
  /\ success (fst r) = existsb (fun x => f (key x)) db.
Proof.
  intros f r. subst r. unfold mark_reminder_done, update_done.
  fold f.
  rewrite (filter_nil_existsb (fun x => f (key x)) db).
  destruct (filter (fun r => f (key r)) db) as [|h hs] eqn:Eh.
  - cbn [map].
    assert (Ee : filter (fun r => Store.eq_title (a :: title) (key r)) db = []).
    { apply (@filter_weaker _ (fun r => f (key r))); [|exact Eh].
      intros x. apply eq_title_ilike. }
    rewrite (@map_mark_none f db Eh).
    rewrite (@map_mark_none _ db Ee), Ee. cbn [map]. split; reflexivity.
  - cbn [map]. destruct hs; split; reflexivity.
Qed.

(** *** The sample ordering *)



End LedgerFacts.

(** * The claims *)

Import Clock Stamp ClockFacts ReFacts ResolverFacts ExtractFacts.

(** ** C1: the electricity example *)

(** The classifier hands the text after "create reminder" to the extractor. *)
Lemma electricity_is_create now calendar_parse :
  classify now calendar_parse
    (s "create reminder to pay electricity bill $150 by August 15")
  = (info <- extract_reminder_info now calendar_parse
               (s "to pay electricity bill $150 by August 15") ;;
     Ok (Create info)).
Proof. lazy -[extract_reminder_info]. reflexivity. Qed.

(** C1, as stated, fails: with the sample clock and calendar parser the
    utterance "create reminder to pay electricity bill $150 by August 15"
    gives the title "Electricity Payment", in which "electricity bill" does
    not occur, whatever the letter case. *)
Lemma electricity_title_is_default :
  ~ (exists i t,
       parse_reminder_request sample_now sample_parse
         (s "create reminder to pay electricity bill $150 by August 15")
       = Create i
       /\ title i = Some t
       /\ Text.contains (s "electricity bill") (Text.lower t) = true).
Proof.
  intros (i & t & Hreq & Ht & Hc).
  vm_compute in Hreq. injection Hreq as <-.
  cbn [title] in Ht. injection Ht as <-.
  vm_compute in Hc. discriminate Hc.
Qed.

(** C1 (amended): for the utterance "create reminder to pay electricity bill
    $150 by August 15", when the calendar parser reads "August 15" as a date
    at midnight, the classifier yields action create with the title
    "Electricity Payment" (cleaning takes the command words, the amount, the
    date and the category text out, nothing is left, and the title falls
    back to the category), amount 150, the due date that the resolver gives
    for "August 15", which is that date with the hour set to 9, category
    "electricity", and no recurrence. *)
Theorem electricity_example now calendar_parse day :
  calendar_parse (s "August 15") = Ok day ->
  is_midnight day = true ->
  parse_reminder_request now calendar_parse
    (s "create reminder to pay electricity bill $150 by August 15")
  = Create (Info (Some (s "Electricity Payment")) 150%Q
                 (Some (strftime (replace_hour day 9)))
                 (Some (s "electricity")) None None)
  /\ action (parse_reminder_request now calendar_parse
               (s "create reminder to pay electricity bill $150 by August 15"))
     = s "create"
  /\ parse_date now calendar_parse (s "August 15")
     = Ok (strftime (replace_hour day 9)).
Proof.
  intros Hday Hmid.
  assert (Hres : parse_date now calendar_parse (s "August 15")
                 = Ok (strftime (replace_hour day 9))).
  { rewrite parse_date_calendar by reflexivity. now rewrite Hday, Hmid. }
  assert (Hinfo : extract_reminder_info now calendar_parse
                    (s "to pay electricity bill $150 by August 15")
                  = Ok (Info (Some (s "Electricity Payment")) 150%Q
                             (Some (strftime (replace_hour day 9)))
                             (Some (s "electricity")) None None)).
  { unfold extract_reminder_info. cbv zeta.
    assert (Hdue : extract_due_date now calendar_parse date_patterns
                     (s "to pay electricity bill $150 by August 15")
                   = (r <- parse_date now calendar_parse (s "August 15") ;;
                      Ok (Some r))).
    { lazy -[parse_date]. reflexivity. }
    rewrite Hdue, Hres. cbn [bind].
    destruct (strftime (replace_hour day 9)) as [|c0 rest0] eqn:Es;
      [exfalso; exact (strftime_nonempty _ Es)|].
    cbn [bind]. vm_compute. reflexivity. }
  assert (Hreq : parse_reminder_request now calendar_parse
            (s "create reminder to pay electricity bill $150 by August 15")
          = Create (Info (Some (s "Electricity Payment")) 150%Q
                         (Some (strftime (replace_hour day 9)))
                         (Some (s "electricity")) None None)).
  { unfold parse_reminder_request.
    rewrite electricity_is_create, Hinfo. reflexivity. }
  rewrite Hreq. repeat split. exact Hres.
Qed.

Lemma electricity_example_witness :
  sample_parse (s "August 15") = Ok (DateTime 739113 0 0 0 0)
  /\ is_midnight (DateTime 739113 0 0 0 0) = true
  /\ parse_reminder_request sample_now sample_parse
       (s "create reminder to pay electricity bill $150 by August 15")
     = Create (Info (Some (s "Electricity Payment")) 150%Q
                    (Some (s "2024-08-15 09:00:00+00:00"))
                    (Some (s "electricity")) None None).
Proof.
  split; [reflexivity|]. split; [reflexivity|].
  apply (@electricity_example sample_now sample_parse (DateTime 739113 0 0 0 0));
    reflexivity.
Defined.

(** ** C2: the suggestions of [delete_reminder] *)

(** The message never lists more than three titles. *)
Lemma suggested_at_most_three (titles : list str) :
  (List.length (firstn 3 (suggestions_of titles)) <= 3)%nat.
Proof. apply firstn_le_length. Qed.

(** C2 (what the code does): deleting by the title "netflix" in a
    table of four reminders, none of which matches, answers with the first
    three stored titles, in lower case, as suggestions, and none of them
    shares a word with "netflix": the condition of the comprehension tests a
    stored title against its own words, not against the query. *)
Theorem delete_suggestions_ignore_query :
  delete_reminder sample_table None (Some (s "netflix"))
  = (Reply false
       (s "No reminder found matching 'netflix'. Did you mean: rent payment, water bill, gym?")
       None,
     sample_table)
  /\ Store.select (Store.ilike_title (s "netflix")) sample_table = []
  /\ Store.select (Store.eq_title (s "netflix")) sample_table = []
  /\ forallb (fun t => negb (shares_word t (s "netflix")))
             [s "rent payment"; s "water bill"; s "gym"] = true
  /\ forallb (fun t => negb (existsb (fun word => Text.contains word t)
                                     (Text.split (s "netflix"))))
             [s "rent payment"; s "water bill"; s "gym"] = true.
Proof. repeat split; vm_compute; reflexivity. Qed.

(** ** C3: what the extractor returns *)

(** C3 (what the code does): for the phrase "pay rent by 12/25"
    the extractor returns no record at all: the date "12/25" starts with a
    digit, is taken for a number of days, and [int] raises [ValueError]. *)
Theorem extract_numeric_date_raises now calendar_parse :
  extract_reminder_info now calendar_parse (s "pay rent by 12/25")
  = Raise ValueError.
Proof. vm_compute. reflexivity. Qed.

(** The same happens for an ISO date and for a capitalised keyword. *)
Lemma extract_other_raises :
  extract_reminder_info sample_now sample_parse (s "pay rent on 2024-08-15")
  = Raise ValueError
  /\ extract_reminder_info sample_now sample_parse (s "Weekly payment")
     = Raise ValueError.
Proof. split; vm_compute; reflexivity. Qed.

(** ** C4: numeric recurrence *)

Lemma every_two_weeks :
  extract_recurrence recurrence_patterns (s "every 2 weeks")
  = Ok (Some (s "custom"), Some 14%Z)
  /\ exists i,
       extract_reminder_info sample_now sample_parse (s "every 2 weeks") = Ok i
       /\ recurrence i = Some (s "custom")
       /\ custom_recurrence_days i = Some 14%Z.
Proof.
  split; [vm_compute; reflexivity|].
  eexists. split; [vm_compute; reflexivity|]. split; reflexivity.
Qed.

(** C4 (what the code does): the phrase "every 2 WEEKS" matches
    the numeric recurrence pattern, which ignores letter case, but the unit
    is then compared with the lower-case words only: the number of days
    stays 2 and no recurrence is set. *)
Theorem uppercase_unit_not_scaled :
  (exists m,
     Re.search true (nth 1 recurrence_patterns Eps) (s "every 2 WEEKS") = Some m
     /\ Re.group m 1 = Some (s "2") /\ Re.group m 2 = Some (s "WEEKS"))
  /\ Re.search true (nth 0 recurrence_patterns Eps) (s "every 2 WEEKS") = None
  /\ extract_recurrence recurrence_patterns (s "every 2 WEEKS")
     = Ok (None, Some 2%Z)
  /\ extract_reminder_info sample_now sample_parse (s "every 2 WEEKS")
     = Ok (Info (Some (s "every WEEKS")) 0%Q
                (Some (s "2024-08-03 14:30:05+00:00")) None None (Some 2%Z)).
Proof.
  split; [eexists; split; [vm_compute; reflexivity|split; reflexivity]|].
  repeat split; vm_compute; reflexivity.
Qed.


(** ** C5: the relative keywords *)

Lemma days_later_stamp t n :
  valid t -> valid (days_later t n) ->
  date_ordinal (strftime (days_later t n)) = Ok (ordinal t + n)%Z
  /\ time_part (strftime (days_later t n))
     = clock_text (hour t) (minute t) (second t).
Proof.
  intros Hv Hv'. split.
  - now rewrite strftime_date_ordinal.
  - now rewrite strftime_time_part.
Qed.

(** C5: at a current time [now] that leaves room for thirty more days, the
    resolver's stamps for "today" and "tomorrow" carry dates exactly one day
    apart, its stamp for "next week" is [now] seven days later and its
    stamp for "next month" is [now] thirty days later, the time of day
    being that of [now] in all of them. *)
Theorem relative_dates now calendar_parse :
  valid now ->
  (ordinal now + 30 <= MAXORDINAL)%Z ->
  exists today tomorrow next_week next_month,
    parse_date now calendar_parse (s "today") = Ok today
    /\ parse_date now calendar_parse (s "tomorrow") = Ok tomorrow
    /\ parse_date now calendar_parse (s "next week") = Ok next_week
    /\ parse_date now calendar_parse (s "next month") = Ok next_month
    /\ (exists day, date_ordinal today = Ok day
                    /\ date_ordinal tomorrow = Ok (day + 1)%Z)
    /\ next_week = strftime (days_later now 7)
    /\ date_ordinal next_week = Ok (ordinal now + 7)%Z
    /\ time_part next_week = clock_text (hour now) (minute now) (second now)
    /\ next_month = strftime (days_later now 30)
    /\ date_ordinal next_month = Ok (ordinal now + 30)%Z
    /\ time_part next_month = clock_text (hour now) (minute now) (second now).
Proof.
  intros Hv Hroom.
  destruct (add_days_in_range Hv (n := 1)) as [_ V1]; [lia|lia|].
  destruct (add_days_in_range Hv (n := 7)) as [_ V7]; [lia|lia|].
  destruct (add_days_in_range Hv (n := 30)) as [_ V30]; [lia|lia|].
  destruct (days_later_stamp Hv V1) as [O1 _].
  destruct (days_later_stamp Hv V7) as [O7 T7].
  destruct (days_later_stamp Hv V30) as [O30 T30].
  exists (strftime now), (strftime (days_later now 1)),
    (strftime (days_later now 7)), (strftime (days_later now 30)).
  split; [apply parse_date_today|].
  split; [apply parse_date_tomorrow; [exact Hv|lia]|].
  split; [apply parse_date_next_week; [exact Hv|lia]|].
  split; [apply parse_date_next_month; [exact Hv|lia]|].
  split.
  { exists (ordinal now). split; [now apply strftime_date_ordinal|exact O1]. }
  repeat split; assumption.
Qed.

Lemma relative_dates_witness :
  valid sample_now
  /\ (ordinal sample_now + 30 <= MAXORDINAL)%Z
  /\ exists today tomorrow next_week next_month,
       parse_date sample_now sample_parse (s "today") = Ok today
       /\ parse_date sample_now sample_parse (s "tomorrow") = Ok tomorrow
       /\ parse_date sample_now sample_parse (s "next week") = Ok next_week
       /\ parse_date sample_now sample_parse (s "next month") = Ok next_month
       /\ (exists day, date_ordinal today = Ok day
                       /\ date_ordinal tomorrow = Ok (day + 1)%Z)
       /\ next_week = strftime (days_later sample_now 7)
       /\ date_ordinal next_week = Ok (ordinal sample_now + 7)%Z
       /\ time_part next_week
          = clock_text (hour sample_now) (minute sample_now) (second sample_now)
       /\ next_month = strftime (days_later sample_now 30)
       /\ date_ordinal next_month = Ok (ordinal sample_now + 30)%Z
       /\ time_part next_month
          = clock_text (hour sample_now) (minute sample_now) (second sample_now).
Proof.
  split; [reflexivity|]. split; [vm_compute; discriminate|].
  apply (@relative_dates sample_now sample_parse);
    [reflexivity | vm_compute; discriminate].
Defined.

(** ** C6: the resolver always answers with a stamp *)




(** ** C7: the time of day of a parsed date *)


(** ** C8: deleting by title *)

(** C8: classifying "delete reminder: Netflix" yields the action delete with
    the title "netflix": the first delete pattern matches the lower-cased
    utterance, its group is what follows the command word and the colon,
    and taking the stray words out leaves it as it is. *)
Theorem classify_delete_netflix now calendar_parse :
  parse_reminder_request now calendar_parse (s "delete reminder: Netflix")
  = Delete (s "netflix")
  /\ action (parse_reminder_request now calendar_parse
               (s "delete reminder: Netflix")) = s "delete"
  /\ (exists m,
        Re.search false (nth 0 delete_patterns Eps)
                  (Text.lower (s "delete reminder: Netflix")) = Some m
        /\ Re.group m 1 = Some (s "netflix"))
  /\ Text.strip (Re.sub false stray_words [] (s "my netflix reminder"))
     = s "netflix".
Proof.
  split; [vm_compute; reflexivity|].
  split; [vm_compute; reflexivity|].
  split; [eexists; split; [vm_compute; reflexivity|reflexivity]|].
  vm_compute. reflexivity.
Qed.

(** ** C9: exceptions in the classifier *)

(** C9: [parse_reminder_request] returns a request for every utterance, and
    whenever the body of its [try] raises, the request is the one with the
    action none. *)
Theorem classifier_catches_exceptions now calendar_parse user_input e :
  classify now calendar_parse user_input = Raise e ->
  parse_reminder_request now calendar_parse user_input = NoAction
  /\ action (parse_reminder_request now calendar_parse user_input) = s "none".
Proof.
  intros H. unfold parse_reminder_request. rewrite H. split; reflexivity.
Qed.

Lemma classifier_catches_exceptions_witness :
  classify sample_now sample_parse (s "create reminder pay rent by 12/25")
  = Raise ValueError
  /\ parse_reminder_request sample_now sample_parse
       (s "create reminder pay rent by 12/25") = NoAction.
Proof.
  split; [vm_compute; reflexivity|].
  apply (@classifier_catches_exceptions sample_now sample_parse
           (s "create reminder pay rent by 12/25") ValueError).
  vm_compute. reflexivity.
Defined.

(** When the body does not raise, its request is returned as it is. *)
Lemma classifier_returns_body now calendar_parse user_input r :
  classify now calendar_parse user_input = Ok r ->
  parse_reminder_request now calendar_parse user_input = r.
Proof. intros H. unfold parse_reminder_request. now rewrite H. Qed.

(** ** C10: a single decimal digit *)



(** With two digits after the point the fraction is part of the amount. *)
Lemma amount_two_decimal_digits :
  extract_amount amount_patterns (s "$12.50") = (25 # 2)%Q
  /\ extract_amount amount_patterns (s "$12.5") = 12%Q
  /\ extract_amount amount_patterns (s "$12.505") = (25 # 2)%Q.
Proof. repeat split; vm_compute; reflexivity. Qed.

(** * Further properties *)

Import Clock Stamp ClockFacts ReFacts ResolverFacts ExtractFacts.
Import ReSem ReSound TextFacts PatternFacts CaptureFacts.

(** ** The field extractor on every phrase *)

(** X1: the amount is read from the first of the amount patterns that is
    found in the phrase: the text of its group is a piece of the phrase, it
    is a decimal literal (digits, possibly a point and two digits), [float]
    accepts it, and the amount is the number it writes; the patterns after
    it are not looked at. *)
Theorem amount_of_first_match text before p after m :
  amount_patterns = before ++ p :: after ->
  (forall q, In q before -> search true q text = None) ->
  search true p text = Some m ->
  (exists pre post, text = pre ++ group_str m 1 ++ post)
  /\ is_decimal (group_str m 1) = true
  /\ Num.float_of_str (group_str m 1) = Ok (extract_amount amount_patterns text)
  /\ extract_amount amount_patterns text = decimal_value (group_str m 1).
Proof.
  intros E Hb Hs.
  assert (Hin : In p amount_patterns).
  { rewrite E. apply in_or_app. right. now left. }
  destruct (@search_group_str _ _ _ _ _ _ Hs (@amount_groups _ Hin)) as (pre & post & Ht & Hr).
  pose proof (@reads_decimal _ _ Hr) as Hd.
  pose proof (@float_of_decimal _ Hd) as Hf.
  assert (Ha : extract_amount amount_patterns text = decimal_value (group_str m 1)).
  { rewrite E. clear E Hin. induction before as [|q before IH].
    - cbn [app extract_amount]. now rewrite Hs, Hf.
    - cbn [app extract_amount]. rewrite (Hb q (or_introl eq_refl)).
      apply IH. intros q' Hq'. apply Hb. now right. }
  split; [now exists pre, post|]. split; [exact Hd|].
  split; [now rewrite Ha|exact Ha].
Qed.

Lemma amount_of_first_match_witness :
  is_decimal (s "12.50") = true
  /\ extract_amount amount_patterns (s "send 12.50 dollars, pay 7")
     = decimal_value (s "12.50").
Proof.
  pose (m := MatchObj 5 18 [(1%nat, s "12.50")]).
  assert (Hb : forall q, In q (firstn 2 amount_patterns) ->
                         search true q (s "send 12.50 dollars, pay 7") = None).
  { intros q [<-|[<-|[]]]; vm_compute; reflexivity. }
  assert (Hs : search true (nth 2 amount_patterns Eps)
                      (s "send 12.50 dollars, pay 7") = Some m).
  { vm_compute. reflexivity. }
  destruct (@amount_of_first_match (s "send 12.50 dollars, pay 7")
              (firstn 2 amount_patterns) (nth 2 amount_patterns Eps)
              (skipn 3 amount_patterns) m eq_refl Hb Hs)
    as (_ & Hd & _ & Ha).
  split; [exact Hd|exact Ha].
Defined.

(** X2: a date written with digits and separators after "on", "by" or
    "due", as in "by 12/25" or "on 2024-08-15", never gives a due date:
    whenever the second or the third date pattern is the first to be found in
    a phrase, the text of its group begins with a digit, is taken for a
    number of days, and [int] raises [ValueError], so that
    [extract_reminder_info] raises it. *)
Theorem numeric_dates_raise now calendar_parse text i m :
  (i = 1 \/ i = 2)%nat ->
  (forall j, (j < i)%nat -> search true (date_form j) text = None) ->
  search true (date_form i) text = Some m ->
  extract_due_date now calendar_parse date_patterns text = Raise ValueError
  /\ extract_reminder_info now calendar_parse text = Raise ValueError.
Proof.
  intros Hi Hb Hs.
  assert (Hsep : separated (group_str m 1)).
  { destruct Hi as [-> | ->].
    - destruct (@search_group_str _ _ _ _ 1%nat numeric_date Hs eq_refl)
        as (_ & _ & _ & Hr).
      exact (@reads_numeric_date _ _ Hr).
    - destruct (@search_group_str _ _ _ _ 1%nat _ Hs eq_refl)
        as (_ & _ & _ & Hr).
      exact (@reads_iso_date _ _ Hr). }
  destruct (@separated_raises _ Hsep) as [Hm Hint].
  assert (Hd : extract_due_date now calendar_parse date_patterns text
               = Raise ValueError).
  { rewrite date_patterns_forms. cbn [extract_due_date].
    rewrite (Hb 0%nat) by (destruct Hi; lia).
    destruct Hi as [-> | ->].
    - rewrite Hs. destruct (match_ false (plus d) (group_str m 1));
        [|congruence]. now rewrite Hint.
    - rewrite (Hb 1%nat) by lia. rewrite Hs.
      destruct (match_ false (plus d) (group_str m 1)); [|congruence].
      now rewrite Hint. }
  split; [exact Hd|].
  unfold extract_reminder_info. cbv zeta. now rewrite Hd.
Qed.

Lemma numeric_dates_raise_witness :
  extract_reminder_info sample_now sample_parse (s "pay rent on 2024-08-15")
  = Raise ValueError.
Proof.
  refine (proj2 (@numeric_dates_raise sample_now sample_parse
                   (s "pay rent on 2024-08-15") 2
                   (MatchObj 9 22 [(1%nat, s "2024-08-15")]) _ _ _)).
  - now right.
  - intros [|[|j]] Hj; [vm_compute; reflexivity ..|lia].
  - vm_compute. reflexivity.
Defined.





(** ** The classifier on every utterance *)

(** X5: the title of a delete request and of a mark-done request is never
    empty, has no whitespace at either end, and is in lower case whatever
    the letter case of the utterance. *)
Theorem command_titles now calendar_parse user_input t :
  parse_reminder_request now calendar_parse user_input = Delete t
  \/ parse_reminder_request now calendar_parse user_input = MarkDone t ->
  t <> [] /\ Text.strip t = t /\ Text.lower t = t.
Proof.
  intros H. unfold parse_reminder_request in H.
  destruct (classify now calendar_parse user_input) as [r|e] eqn:Ec;
    [|destruct H; discriminate].
  assert (Hr : r = Delete t \/ r = MarkDone t) by exact H. clear H.
  destruct (ClassifierFacts.classify_cases _ _ _ Ec) as [Hd|[->|[Hm|Hc]]].
  - apply ClassifierFacts.delete_request_shape in Hd; [|exact delete_groups].
    destruct Hd as (title & -> & Hne & Hs & Hl).
    specialize (Hl (lower_idem user_input)).
    destruct Hr as [Hr|Hr]; [|discriminate]. injection Hr as <-. auto.
  - destruct Hr; discriminate.
  - apply ClassifierFacts.mark_request_shape in Hm.
    destruct Hm as (title & -> & Hne & Hs & Hl).
    specialize (Hl (lower_idem user_input)).
    destruct Hr as [Hr|Hr]; [discriminate|]. injection Hr as <-. auto.
  - apply ClassifierFacts.create_request_shape in Hc.
    destruct Hc as [->|(p & m & i & _ & _ & _ & ->)]; destruct Hr; discriminate.
Qed.

Lemma command_titles_witness :
  parse_reminder_request sample_now sample_parse
    (s "Cancel  My NETFLIX Subscription reminder")
  = Delete (s "netflix subscription")
  /\ Text.strip (s "netflix subscription") = s "netflix subscription".
Proof.
  assert (H : parse_reminder_request sample_now sample_parse
                (s "Cancel  My NETFLIX Subscription reminder")
              = Delete (s "netflix subscription"))
    by (vm_compute; reflexivity).
  split; [exact H|].
  exact (proj1 (proj2 (@command_titles sample_now sample_parse _ _
                         (or_introl H)))).
Defined.





(** ** The resolver's keywords *)

(** X8: a date phrase that holds a relative keyword is resolved from the
    current time alone: the calendar parser is not asked, so the rest of the
    phrase, a time of day for instance, is ignored; and "today" comes first:
    a phrase that holds it gets the stamp of the current time even when it
    holds "tomorrow" as well. *)
Theorem relative_keyword_decides now parse1 parse2 date_str :
  relative_keyword date_str = true ->
  parse_date now parse1 date_str = parse_date now parse2 date_str
  /\ (Text.contains (s "today") (Text.lower date_str) = true ->
      parse_date now parse1 date_str = Ok (strftime now)).
Proof.
  unfold relative_keyword, parse_date. cbv zeta. intros H.
  destruct (Text.contains (s "today") _); [split; reflexivity|].
  split; [|discriminate].
  destruct (Text.contains (s "tomorrow") _); [reflexivity|].
  destruct (Text.contains (s "next week") _); [reflexivity|].
  destruct (Text.contains (s "next month") _); [reflexivity|].
  discriminate H.
Qed.

Lemma relative_keyword_decides_witness :
  parse_date sample_now sample_parse (s "Tomorrow at 5pm, not today")
  = Ok (strftime sample_now).
Proof.
  refine (proj2 (@relative_keyword_decides sample_now sample_parse sample_parse
                   (s "Tomorrow at 5pm, not today") _) _);
    vm_compute; reflexivity.
Defined.

(** ** Deleting reminders *)

Import StoreFacts.





(** X11: with an identifier, [delete_reminder] does not look at the title:
    it removes the rows with that identifier, succeeds exactly when there is
    one, and always reports how many rows are gone, zero included. *)
Theorem delete_by_id_ignores_title db reminder_id title1 title2 :
  reminder_id <> [] ->
  delete_reminder db (Some reminder_id) title1
  = delete_reminder db (Some reminder_id) title2
  /\ success (fst (delete_reminder db (Some reminder_id) title1))
     = existsb (Store.eq_id reminder_id) db
  /\ deleted_count (fst (delete_reminder db (Some reminder_id) title1))
     = Some (List.length (filter (Store.eq_id reminder_id) db))
  /\ snd (delete_reminder db (Some reminder_id) title1)
     = filter (fun row => negb (Store.eq_id reminder_id row)) db.
Proof.
  intros Hne. destruct reminder_id as [|a reminder_id]; [congruence|].
  split; [reflexivity|].
  rewrite filter_nil_existsb.
  exact (@delete_by_id db a reminder_id title1).
Qed.

Lemma delete_by_id_ignores_title_witness :
  delete_reminder sample_table (Some (s "3")) (Some (s "rent"))
  = delete_reminder sample_table (Some (s "3")) None
  /\ snd (delete_reminder sample_table (Some (s "3")) (Some (s "rent")))
     = [Store.Row (s "1") (s "Rent Payment"); Store.Row (s "2") (s "Water Bill");
        Store.Row (s "4") (s "Phone Plan")].
Proof.
  destruct (@delete_by_id_ignores_title sample_table (s "3") (Some (s "rent"))
              None ltac:(discriminate)) as (H1 & _ & _ & H2).
  split; [exact H1|exact H2].
Defined.



(** X13: the list commands come before the mark and the create commands:
    an utterance that holds one of the four list phrases and none of the
    verbs "delete", "remove" and "cancel", letter case apart, is a list
    request whatever else it says, so that nothing is marked or created. *)
Theorem list_command_comes_first now calendar_parse user_input :
  existsb (fun k => Text.contains k (Text.lower user_input)) delete_verbs = false ->
  existsb (fun cmd => Text.contains cmd (Text.lower user_input)) list_commands
  = true ->
  parse_reminder_request now calendar_parse user_input = ListReminders.
Proof.
  intros Hd Hl. unfold parse_reminder_request, classify. cbv zeta.
  rewrite (@ClassifierFacts.no_verb_no_delete _ Hd). now rewrite Hl.
Qed.

Lemma list_command_comes_first_witness :
  parse_reminder_request sample_now sample_parse
    (s "Remind me to pay rent $900 tomorrow, then show reminders")
  = ListReminders.
Proof.
  apply (@list_command_comes_first sample_now sample_parse
           (s "Remind me to pay rent $900 tomorrow, then show reminders"));
    vm_compute; reflexivity.
Defined.

(** ** Marking, listing and creating reminders *)

Import Ledger LedgerFacts.



(** X15: marking by the same title a second time changes nothing and
    answers as the first time: a reminder that is done already is marked
    again without complaint. *)
Theorem mark_twice_is_mark_once db title r db' :
  title <> [] ->
  mark_reminder_done db None (Some title) = (r, db') ->
  snd (mark_reminder_done db' None (Some title)) = db'
  /\ success (fst (mark_reminder_done db' None (Some title))) = success r.
Proof.
  intros Hne E. destruct title as [|a title]; [congruence|].
  destruct (@mark_by_title db a title) as [H1 H2].
  destruct (@mark_by_title db' a title) as [H1' H2'].
  unfold str in *. rewrite E in H1, H2. cbn [fst snd] in H1, H2.
  rewrite H1', H2', H2, H1. split.
  - rewrite map_map. apply map_ext. intros x. apply mark_mark.
  - clear. induction db as [|x db IH]; [reflexivity|].
    cbn [map existsb]. now rewrite key_mark, IH.
Qed.

Lemma mark_twice_is_mark_once_witness :
  snd (mark_reminder_done
         (snd (mark_reminder_done sample_ledger None (Some (s "rent"))))
         None (Some (s "rent")))
  = snd (mark_reminder_done sample_ledger None (Some (s "rent"))).
Proof.
  exact (proj1 (@mark_twice_is_mark_once sample_ledger (s "rent")
                  (fst (mark_reminder_done sample_ledger None (Some (s "rent"))))
                  (snd (mark_reminder_done sample_ledger None (Some (s "rent"))))
                  ltac:(discriminate) (surjective_pairing _))).
Defined.





(** ** More on the classifier and the extractor *)



(** X20: a cleaned title neither begins nor ends with one of the
    characters . , ! ? ; it can begin with a blank, though, since the
    whitespace is stripped before those characters are. *)
Theorem cleaned_title_ends text category :
  (forall a l, clean_title text category = a :: l ->
               existsb (Text.eqc a) (s ".,!?") = false)
  /\ (forall l b, clean_title text category = l ++ [b] ->
                  existsb (Text.eqc b) (s ".,!?") = false)
  /\ clean_title (s ". water") None = s " water".
Proof.
  split; [|split].
  - intros a l H. unfold clean_title, Text.strip_chars in H. cbv zeta in H.
    exact (@strip_by_first _ _ _ _ H).
  - intros l b H. unfold clean_title, Text.strip_chars in H. cbv zeta in H.
    exact (@strip_by_last _ _ _ _ H).
  - vm_compute. reflexivity.
Qed.




